(** * image2mzm: a shallow embedding of [image2mzm.py] and its properties

    The script turns a bitmap into a MegaZeux MZM layer.  The functions
    below follow [image2mzm.py] one by one and keep its names.  Python
    integers are [Z], histogram counts are [N], byte strings are
    [list Byte.byte], text is [string].  Exceptions are the left summand
    of a sum type. *)

From Stdlib Require Import String Ascii.
From Stdlib Require Import Strings.Byte.
From Stdlib Require Import ZArith NArith QArith Lia Bool List Sorted.
Import ListNotations.

Local Open Scope Z_scope.

(** ** Exceptions and results *)

(** The exceptions the script can raise.  The script defines no exception
    class of its own and catches none of these, so every one ends the run.
    [MalformedPaletteError], [InvalidGradientError] and
    [DegenerateCellError] are the error kinds the specification names; no
    statement of the script raises them. *)
Inductive exn : Type :=
| IndexError
| ValueError
| ZeroDivisionError
| OverflowError
| StructError
| FileNotFoundError
| MalformedPaletteError
| InvalidGradientError
| DegenerateCellError.

Definition result (A : Type) : Type := (exn + A)%type.

Definition ret {A : Type} (a : A) : result A := inr a.
Definition raise {A : Type} (e : exn) : result A := inl e.

Definition bind {A B : Type} (m : result A) (f : A -> result B) : result B :=
  match m with
  | inl e => inl e
  | inr a => f a
  end.

Notation "x <- m ;; k" := (bind m (fun x => k))
  (at level 61, m at next level, right associativity).
Notation "' p <- m ;; k" := (bind m (fun x => match x with p => k end))
  (at level 61, p pattern, m at next level, right associativity).

(** [map(f, l)] for an [f] that may raise: the first failure wins. *)
Fixpoint mapM {A B : Type} (f : A -> result B) (l : list A) : result (list B) :=
  match l with
  | [] => ret []
  | a :: l' => b <- f a ;; bs <- mapM f l' ;; ret (b :: bs)
  end.

(** ** Python sequences *)

(** [l[i]]: a negative index counts from the end, anything outside the
    list raises [IndexError]. *)
Definition py_index {A : Type} (l : list A) (i : Z) : result A :=
  let n := Z.of_nat (List.length l) in
  let j := if i <? 0 then i + n else i in
  if (j <? 0) || (n <=? j) then raise IndexError
  else match nth_error l (Z.to_nat j) with
       | Some a => ret a
       | None => raise IndexError
       end.

(** [l * n]: the list repeated [n] times. *)
Fixpoint list_repeat {A : Type} (l : list A) (n : nat) : list A :=
  match n with
  | O => []
  | S n' => l ++ list_repeat l n'
  end.

(** ** Command-line arguments *)

Record args : Type := Args {
  input : string;
  output : string;
  width : Z;
  height : Z;
  char_width : Z;
  char_height : Z;
  palette : option string;
  chars : string
}.

(** The defaults of [build_parser]. *)
Definition default_args (i o : string) : args :=
  Args i o 80 25 8 14 None "176,177,178,219".

(** File contents by path; [None] when the file does not exist. *)
Definition filesystem : Type := string -> option (list byte).

Definition fs_write (fs : filesystem) (path : string) (data : list byte)
  : filesystem :=
  fun p => if String.eqb p path then Some data else fs p.

(** ** Palette *)

Definition DEFAULT_PALETTE : list (list Z) :=
  [ [0; 0; 0]; [0; 0; 42]; [0; 42; 0]; [0; 42; 42]; [42; 0; 0]; [42; 0; 42];
    [42; 21; 0]; [42; 42; 42]; [21; 21; 21]; [21; 21; 63]; [21; 63; 21];
    [21; 63; 63]; [63; 21; 21]; [63; 21; 63]; [63; 63; 21]; [63; 63; 63] ].

Definition byte_to_Z (b : byte) : Z := Z.of_N (Byte.to_N b).

(** The loop of [get_palette]: [n] rounds from offset [j], each appending
    [[k[j], k[j+1], k[j+2]]] and advancing [j] by 3. *)
Fixpoint get_palette_loop (k : list Z) (n : nat) (j : Z) (pal : list (list Z))
  : result (list (list Z)) :=
  match n with
  | O => ret pal
  | S n' =>
      r <- py_index k j ;;
      g <- py_index k (j + 1) ;;
      b <- py_index k (j + 2) ;;
      get_palette_loop k n' (j + 3) (pal ++ [[r; g; b]])
  end.

(** [f.read(48)] returns at most 48 bytes; a shorter file gives all it has. *)
Definition get_palette (fs : filesystem) (a : args) : result (list (list Z)) :=
  match palette a with
  | None => ret DEFAULT_PALETTE
  | Some path =>
      match fs path with
      | None => raise FileNotFoundError
      | Some content =>
          let k := map byte_to_Z (firstn 48 content) in
          get_palette_loop k 16 0 []
      end
  end.

(** The lambda of [make_8bit_palette]. *)
Definition expand (x : Z) : Z := (x * 4) + (x / 16).

Definition make_8bit_palette (pal6bit : list (list Z)) : list Z :=
  map expand (concat pal6bit).

(** The palette handed to [putpalette] in [mad_science]: [pil_pal * 16], a
    flat list of channel values. *)
Definition diffusion_table (pil_pal : list Z) : list Z :=
  list_repeat pil_pal 16.

(** Colour [i] of a flat palette: the channels at [3i], [3i+1], [3i+2]. *)
Definition palette_color (flat : list Z) (i : nat) : option (Z * Z * Z) :=
  match nth_error flat (3 * i)%nat, nth_error flat (3 * i + 1)%nat,
        nth_error flat (3 * i + 2)%nat with
  | Some r, Some g, Some b => Some (r, g, b)
  | _, _, _ => None
  end.

(** Number of whole colours in a flat palette. *)
Definition palette_size (flat : list Z) : nat := (List.length flat / 3)%nat.

(** ** Glyph gradient *)

(** [s.split(',')]: the pieces between commas; there is always at least
    one piece, and the empty string gives one empty piece. *)
Fixpoint py_split (sep : ascii) (s : string) : list string :=
  match s with
  | EmptyString => [EmptyString]
  | String c s' =>
      if Ascii.eqb c sep then EmptyString :: py_split sep s'
      else match py_split sep s' with
           | t :: ts => String c t :: ts
           | [] => [String c EmptyString]
           end
  end.

(** Whitespace that [int] skips around a literal, among the code points
    below 256: tab to carriage return, the space, NEL and the no-break
    space. *)
Definition is_space (c : ascii) : bool :=
  let n := N_of_ascii c in
  (((9 <=? n) && (n <=? 13)) || (n =? 32) || (n =? 133) || (n =? 160))%N.

Definition digit_of (c : ascii) : option Z :=
  let n := N_of_ascii c in
  if ((48 <=? n) && (n <=? 57))%N then Some (Z.of_N n - 48) else None.

Fixpoint lstrip (l : list ascii) : list ascii :=
  match l with
  | c :: l' => if is_space c then lstrip l' else l
  | [] => []
  end.

(** The digits of a literal after its first digit: a single underscore may
    sit between two digits.  Returns the value and what follows the
    digits; [None] for a misplaced underscore. *)
Fixpoint scan_digits (l : list ascii) (acc : Z) : option (Z * list ascii) :=
  match l with
  | [] => Some (acc, [])
  | c :: l' =>
      match digit_of c with
      | Some d => scan_digits l' (10 * acc + d)
      | None =>
          if Ascii.eqb c "_"
          then match l' with
               | c2 :: l'' =>
                   match digit_of c2 with
                   | Some d => scan_digits l'' (10 * acc + d)
                   | None => None
                   end
               | [] => None
               end
          else Some (acc, l)
      end
  end.

Definition parse_unsigned (l : list ascii) : option (Z * list ascii) :=
  match l with
  | c :: l' =>
      match digit_of c with
      | Some d => scan_digits l' d
      | None => None
      end
  | [] => None
  end.

(** [int(s)] on a string of code points below 256, base 10: optional
    surrounding whitespace, an optional sign, then digits.  Anything else
    raises [ValueError].  No limit on the number of digits is modelled. *)
Definition py_int (s : string) : result Z :=
  let l := lstrip (list_ascii_of_string s) in
  let '(sign, body) :=
    match l with
    | c :: l' =>
        if Ascii.eqb c "-" then (-1, l')
        else if Ascii.eqb c "+" then (1, l')
        else (1, l)
    | [] => (1, l)
    end in
  match parse_unsigned body with
  | Some (v, rest) =>
      if forallb is_space rest then ret (sign * v) else raise ValueError
  | None => raise ValueError
  end.

Definition get_chars (a : args) : result (list Z) :=
  mapM py_int (py_split "," (chars a)).

(** ** Ranking a histogram *)

(** [sorted(l, key=lambda tup: tup[0], reverse=True)].  Python's sort is
    stable and stays stable under [reverse=True]: items with equal keys keep
    their original order.  A stable sort has one possible outcome, given
    here by insertion from the right. *)
Fixpoint insert_desc (x : N * nat) (l : list (N * nat)) : list (N * nat) :=
  match l with
  | [] => [x]
  | y :: l' =>
      if (fst x <? fst y)%N then y :: insert_desc x l' else x :: y :: l'
  end.

Definition sorted_desc (l : list (N * nat)) : list (N * nat) :=
  fold_right insert_desc [] l.

(** [zip(hist, range(len(hist)))] *)
Definition zip_range (hist : list N) : list (N * nat) :=
  combine hist (seq 0 (length hist)).

Definition ranking (hist : list N) : list (N * nat) :=
  sorted_desc (zip_range hist).


(** ** Floating point

    Python floats are IEEE 754 binary64 values.  A finite one is kept as
    the exact dyadic number [Dnum * 2 ^ Dexp]; arithmetic computes the exact
    rational result and rounds it once, to nearest with ties to even, as
    the hardware does. *)

Record dyadic : Type := Dy { Dnum : Z; Dexp : Z }.

Inductive pyfloat : Type :=
| Finite (d : dyadic)
| Infinity.

(** The integer nearest to [p / q], ties to the even one ([0 < q]). *)
Definition rne (p q : Z) : Z :=
  let d := p / q in
  let r := p mod q in
  if 2 * r <? q then d
  else if q <? 2 * r then d + 1
  else if Z.even d then d else d + 1.

(** [floor (log2 (p / q))] for [0 < p] and [0 < q]. *)
Definition ilog2 (p q : Z) : Z :=
  let d := Z.log2 p - Z.log2 q in
  let below := if 0 <=? d then p <? q * 2 ^ d else p * 2 ^ (- d) <? q in
  if below then d - 1 else d.

(** [p / q] rounded to 53 significant bits, with the exponent kept at or
    above that of the subnormal numbers ([0 < q]). *)
Definition round_b64 (p q : Z) : dyadic :=
  if p =? 0 then Dy 0 0
  else
    let e := Z.max (ilog2 (Z.abs p) q - 52) (- 1074) in
    if 0 <=? e then Dy (rne p (q * 2 ^ e)) e
    else Dy (rne (p * 2 ^ (- e)) q) e.

(** Whether a rounded value lies beyond the largest finite float. *)
Definition overflows (d : dyadic) : bool :=
  let m := Z.abs (Dnum d) in
  if 0 <=? Dexp d then 2 ^ 1024 <=? m * 2 ^ Dexp d
  else 2 ^ 1024 * 2 ^ (- Dexp d) <=? m.

(** [a / b] on integers: the correctly rounded quotient. *)
Definition int_truediv (a b : Z) : result dyadic :=
  if b =? 0 then raise ZeroDivisionError
  else
    let d := round_b64 (a * Z.sgn b) (Z.abs b) in
    if overflows d then raise OverflowError else ret d.

(** The conversion of an integer operand in mixed arithmetic. *)
Definition float_of_int (k : Z) : result dyadic :=
  let d := round_b64 k 1 in
  if overflows d then raise OverflowError else ret d.

(** [x * y] on finite floats. *)
Definition float_mul (x y : dyadic) : pyfloat :=
  let m := Dnum x * Dnum y in
  let e := Dexp x + Dexp y in
  let d := if 0 <=? e then round_b64 (m * 2 ^ e) 1
           else round_b64 m (2 ^ (- e)) in
  if overflows d then Infinity else Finite d.

(** [round(x)], to the nearest integer with ties to even. *)
Definition py_round (x : pyfloat) : result Z :=
  match x with
  | Infinity => raise OverflowError
  | Finite (Dy m e) =>
      ret (if 0 <=? e then m * 2 ^ e else rne m (2 ^ (- e)))
  end.

(** The exact value of a finite float. *)
Definition dy_Q (d : dyadic) : Q :=
  if 0 <=? Dexp d then inject_Z (Dnum d * 2 ^ Dexp d)
  else Qmake (Dnum d) (Z.to_pos (2 ^ (- Dexp d))).

(** ** The cell reducer *)

(** [(ranking[0], ranking[1])] *)
Definition top_two (hist : list N) : result ((N * nat) * (N * nat)) :=
  let r := ranking hist in
  winner <- py_index r 0 ;;
  second <- py_index r 1 ;;
  ret (winner, second).

(** [winner[0] / (winner[0] + second[0])] *)
Definition winner_ratio (winner second : N * nat) : result dyadic :=
  int_truediv (Z.of_N (fst winner)) (Z.of_N (fst winner) + Z.of_N (fst second)).

(** [round(winner_ratio*(len(mzx_chars)-1))] *)
Definition winner_char_index (ratio : dyadic) (mzx_chars : list Z) : result Z :=
  k <- float_of_int (Z.of_nat (length mzx_chars) - 1) ;;
  py_round (float_mul ratio k).

Definition rank_histogram_to_col_and_char
  (hist : list N) (mzx_pal : list (list Z)) (mzx_chars : list Z)
  : result (Z * Z) :=
  '(winner, second) <- top_two hist ;;
  let winner_col := Z.of_nat (snd winner) mod 16 in
  let second_col := Z.of_nat (snd second) mod 16 in
  ratio <- winner_ratio winner second ;;
  index <- winner_char_index ratio mzx_chars ;;
  char <- py_index mzx_chars index ;;
  let color := winner_col + (second_col * 16) in
  ret (char, color).


(** ** Quantised images

    What [quantize_image] returns: an image of mode [P], here its rows of
    palette indices.  A pixel outside the stored rows reads as index 0, as
    Pillow fills the part of a crop box that leaves the image. *)
Definition pimage : Type := list (list Z).

Definition getpixel (im : pimage) (x y : Z) : Z :=
  if (x <? 0) || (y <? 0) then 0
  else nth (Z.to_nat x) (nth (Z.to_nat y) im []) 0.

(** [range(lo, hi)] *)
Definition zrange (lo hi : Z) : list Z :=
  map (fun i => lo + Z.of_nat i) (seq 0 (Z.to_nat (hi - lo))).

(** The pixels of [im.crop((lx, uy, rx, dy))], row by row. *)
Definition crop (im : pimage) (lx uy rx dy : Z) : list Z :=
  flat_map (fun y => map (fun x => getpixel im x y) (zrange lx rx))
           (zrange uy dy).

(** [histogram()] of a mode [P] image: 256 bins, one per palette index. *)
Definition histogram (px : list Z) : list N :=
  map (fun b => N.of_nat (length (filter (Z.eqb (Z.of_nat b)) px)))
      (seq 0 256).

(** ** Binary writer *)

Definition byte_of_Z (z : Z) : byte :=
  match Byte.of_N (Z.to_N (z mod 256)) with
  | Some b => b
  | None => x00
  end.

(** The little-endian bytes of an unsigned field of [n] bytes. *)
Fixpoint le_bytes (n : nat) (v : Z) : list byte :=
  match n with
  | O => []
  | S n' => byte_of_Z v :: le_bytes n' (v / 256)
  end.

(** An unsigned field of [struct.pack]: [B], [H] and [I] are 1, 2 and 4
    bytes; a value outside the field's range raises [struct.error]. *)
Definition pack_uint (n : nat) (v : Z) : result (list byte) :=
  if (0 <=? v) && (v <? 2 ^ (8 * Z.of_nat n)) then ret (le_bytes n v)
  else raise StructError.

(** [bytearray(l)]: every item must be in [range(256)]. *)
Definition bytearray (l : list Z) : result (list byte) :=
  mapM (fun z => if (0 <=? z) && (z <? 256) then ret (byte_of_Z z)
                 else raise ValueError) l.

(** [struct.pack('<ccccHHIBBBBBxxx', b'M', b'Z', b'M', b'3', width, height,
    0, 0, 1, 0, 0x5c, 2)] *)
Definition pack_header (a : args) : result (list byte) :=
  w <- pack_uint 2 (width a) ;;
  h <- pack_uint 2 (height a) ;;
  robots_at <- pack_uint 4 0 ;;
  robots <- pack_uint 1 0 ;;
  storage <- pack_uint 1 1 ;;
  savegame <- pack_uint 1 0 ;;
  minor <- pack_uint 1 92 ;;
  major <- pack_uint 1 2 ;;
  ret (["M"%byte; "Z"%byte; "M"%byte; "3"%byte] ++ w ++ h ++ robots_at
       ++ robots ++ storage ++ savegame ++ minor ++ major
       ++ [x00; x00; x00]).

(** [[b for pair in layer for b in pair]] *)
Definition flatten_layer (layer : list (Z * Z)) : list Z :=
  flat_map (fun pair => [fst pair; snd pair]) layer.

(** The writer returns the file system it leaves behind and whether it
    raised.  The header is packed and the body converted before the file
    is opened, so a failure there leaves no file.  Opening the output and
    writing to it are taken to succeed: what the operating system may
    refuse is not part of this model. *)
Definition write_mzm (fs : filesystem) (a : args) (layer : list (Z * Z))
  : filesystem * result unit :=
  match (header <- pack_header a ;;
         file_bytes <- bytearray (flatten_layer layer) ;;
         ret (header ++ file_bytes)) with
  | inl e => (fs, raise e)
  | inr content => (fs_write fs (output a) content, ret tt)
  end.

(** ** Layer builder and entry point *)

Section Pillow.

(** The parts of Pillow the script calls on decoded images: opening a
    file, resizing, and quantising against a palette image with
    dithering.  Each may raise. *)
Variable image : Type.
Variable image_open : filesystem -> string -> result image.
Variable resize : image -> Z -> Z -> result image.
Variable quantize_image : image -> list Z -> result pimage.

(** The body of the two loops of [mad_science] for cell [(x, y)]. *)
Definition cell (a : args) (newim : pimage)
  (mzx_pal : list (list Z)) (mzx_chars : list Z) (y x : Z)
  : result (Z * Z) :=
  let lx := x * char_width a in
  let uy := y * char_height a in
  let rx := lx + char_width a in
  let dy := uy + char_height a in
  let subim := crop newim lx uy rx dy in
  let hist := histogram subim in
  rank_histogram_to_col_and_char hist mzx_pal mzx_chars.

Definition mad_science (a : args) (im : image) (pil_pal : list Z)
  (mzx_pal : list (list Z)) (mzx_chars : list Z) : result (list (Z * Z)) :=
  im2 <- resize im (width a * char_width a) (height a * char_height a) ;;
  let pp := diffusion_table pil_pal in
  newim <- quantize_image im2 pp ;;
  rows <- mapM (fun y => mapM (cell a newim mzx_pal mzx_chars y)
                              (zrange 0 (width a)))
               (zrange 0 (height a)) ;;
  ret (concat rows).

Definition main (fs : filesystem) (a : args) : filesystem * result unit :=
  match (mzx_pal <- get_palette fs a ;;
         let pil_pal := make_8bit_palette mzx_pal in
         chars <- get_chars a ;;
         im <- image_open fs (input a) ;;
         mad_science a im pil_pal mzx_pal chars) with
  | inl e => (fs, raise e)
  | inr layer => write_mzm fs a layer
  end.

End Pillow.


(** ** Notions used to state the properties *)

(** The order of the ranking: larger count first, and among equal counts
    the lower bin index first. *)
Definition ranks_before (x y : N * nat) : Prop :=
  (fst y < fst x)%N \/ (fst y = fst x /\ (snd x < snd y)%nat).

(** The number of pixels a histogram counts. *)
Definition total (hist : list N) : N := fold_right N.add 0%N hist.

(** [x] clamped into the range from [lo] to [hi]. *)
Definition clamp (lo hi x : Z) : Z := Z.max lo (Z.min x hi).

(** [round(k / 2)], as Python computes it. *)
Definition py_round_half (k : Z) : result Z :=
  h <- int_truediv k 2 ;; py_round (Finite h).

(** ** Concrete runs *)

(** A stand-in for Pillow that decodes every file to the same image,
    resizes to any size of at least 1 by 1, raising [ValueError] below that
    as Pillow does, and quantises to a given index grid. *)
Definition stub_open (fs : filesystem) (path : string) : result unit := ret tt.
Definition stub_resize (im : unit) (w h : Z) : result unit :=
  if (w <? 1) || (h <? 1) then raise ValueError else ret im.
Definition stub_quantize (g : pimage) (im : unit) (pal : list Z)
  : result pimage := ret g.

(** A file system holding one palette file of 30 bytes. *)
Definition fs_short_palette : filesystem :=
  fun p =>
    if String.eqb p "short.pal"%string then Some (repeat x00 30) else None.

Definition args_short_palette : args :=
  Args "in.png" "out.mzm" 80 25 8 14 (Some "short.pal"%string) "176,177,178,219".

(** [--chars "1"] *)
Definition args_single_char : args :=
  Args "in.png" "out.mzm" 80 25 8 14 None "1".

(** [--chars "176,x"] *)
Definition args_bad_char : args :=
  Args "in.png" "out.mzm" 80 25 8 14 None "176,x".

(** [--char-width 0] *)
Definition args_zero_cell : args :=
  Args "in.png" "out.mzm" 80 25 0 14 None "176,177,178,219".

Definition fs_empty : filesystem := fun _ => None.

(** The histogram of an 8 by 14 cell split evenly between indices 1 and 3. *)
Definition hist_tied : list N := [0; 56; 0; 56]%N ++ repeat 0%N 252.

(** The histogram of an 8 by 14 cell filled with index 5. *)
Definition hist_uniform : list N := repeat 0%N 5 ++ [112%N] ++ repeat 0%N 250.

(** The gradient of [--chars] by default. *)
Definition default_chars : list Z := [176; 177; 178; 219].

(** How often [sep] occurs in [s]. *)
Fixpoint count_sep (sep : ascii) (s : string) : nat :=
  match s with
  | EmptyString => 0
  | String c s' => (if Ascii.eqb c sep then 1 else 0) + count_sep sep s'
  end.

(** Every stored pixel of a quantised image is a palette index. *)
Definition indices_in_range (im : pimage) : Prop :=
  Forall (Forall (fun v => 0 <= v < 256)) im.

(** A layer entry the writer can store: two byte values. *)
Definition byte_pair (p : Z * Z) : Prop :=
  0 <= fst p < 256 /\ 0 <= snd p < 256.

(** A file system holding one palette file of 50 bytes. *)
Definition fs_long_palette : filesystem :=
  fun p => if String.eqb p "long.pal"%string then Some (repeat x3f 50) else None.

Definition args_long_palette : args :=
  Args "in.png" "out.mzm" 80 25 8 14 (Some "long.pal"%string) "176,177,178,219".

(** The 20 header bytes of an MZM file for a [w] by [h] layer, as numbers. *)
Definition header_values (w h : Z) : list Z :=
  [77; 90; 77; 51; w mod 256; w / 256; h mod 256; h / 256;
   0; 0; 0; 0; 0; 1; 0; 92; 2; 0; 0; 0].

(** The block of cell [(x, y)] shows index [p] everywhere. *)
Definition uniform_cell (a : args) (newim : pimage) (y x p : Z) : Prop :=
  forall px py,
    x * char_width a <= px < x * char_width a + char_width a ->
    y * char_height a <= py < y * char_height a + char_height a ->
    getpixel newim px py = p.

(** A 3 by 2 grid of 2 by 2 cells, each filled with one index. *)
Definition small_image : pimage :=
  [ [5; 5; 0; 0; 7; 7];
    [5; 5; 0; 0; 7; 7];
    [9; 9; 3; 3; 3; 3];
    [9; 9; 3; 3; 3; 3] ].

Definition args_small : args :=
  Args "in.png" "out.mzm" 3 2 2 2 None "176,177,178,219".

(** [--width -2 --char-width -4]: a negative width whose product with the
    cell width is a size Pillow accepts. *)
Definition args_empty_grid : args :=
  Args "in.png" "out.mzm" (-2) 25 (-4) 14 None "176,177,178,219".

(** The layer of [small_image]: every cell is uniform. *)
Definition small_layer : list (Z * Z) :=
  [(219, 5); (219, 16); (219, 7); (219, 9); (219, 3); (219, 3)].

(** [2 ^ e <= p / q], for [0 < q]. *)
Definition pow2_le (e p q : Z) : Prop :=
  if 0 <=? e then q * 2 ^ e <= p else q <= p * 2 ^ (- e).

(** [x <= y] on floats of exponent at most 0. *)
Definition dy_le (x y : dyadic) : Prop :=
  Dnum x * 2 ^ (- Dexp y) <= Dnum y * 2 ^ (- Dexp x).

(** * Properties *)

(** ** Palette expansion and the diffusion table *)

Lemma expand_range (v : Z) : 0 <= v <= 63 -> 0 <= expand v <= 255.
Proof.
  intros Hv. unfold expand.
  assert (0 <= v / 16 < 4).
  { split; [apply Z.div_pos; lia | apply Z.div_lt_upper_bound; lia]. }
  lia.
Qed.

Lemma length_list_repeat {A : Type} (l : list A) (n : nat) :
  length (list_repeat l n) = (n * length l)%nat.
Proof.
  induction n as [|n IH]; simpl; [reflexivity|].
  rewrite length_app, IH. reflexivity.
Qed.

Lemma nth_error_list_repeat {A : Type} (l : list A) (n j : nat) :
  (j < n * length l)%nat ->
  nth_error (list_repeat l n) j = nth_error l (j mod length l).
Proof.
  revert j. induction n as [|n IH]; intros j Hj; simpl in *; [lia|].
  destruct (Nat.lt_ge_cases j (length l)) as [Hlt|Hge].
  - rewrite nth_error_app1 by assumption.
    rewrite Nat.mod_small by assumption. reflexivity.
  - rewrite nth_error_app2 by assumption.
    rewrite IH by lia.
    replace j with ((j - length l) + 1 * length l)%nat at 2 by lia.
    rewrite Nat.Div0.mod_add. reflexivity.
Qed.

Lemma length_concat_triples (pal : list (list Z)) :
  Forall (fun c => length c = 3%nat) pal ->
  length (concat pal) = (3 * length pal)%nat.
Proof.
  induction 1 as [|c pal Hc _ IH]; simpl; [reflexivity|].
  rewrite length_app, Hc, IH. lia.
Qed.

(** C8: the expanded palette holds [v*4 + v//16] at the place of every
    channel value [v] of the 6-bit palette, and a channel value in [0,63]
    expands into [0,255], 63 giving exactly 255. *)
Theorem make_8bit_palette_expand
  (pal6bit : list (list Z)) (i : nat) (v : Z)
  (Hv : nth_error (concat pal6bit) i = Some v)
  (Hrange : 0 <= v <= 63) :
  nth_error (make_8bit_palette pal6bit) i = Some (v * 4 + v / 16)
  /\ 0 <= v * 4 + v / 16 <= 255
  /\ expand 63 = 255
  /\ length (make_8bit_palette pal6bit) = length (concat pal6bit).
Proof.
  unfold make_8bit_palette. repeat split.
  - rewrite nth_error_map, Hv. reflexivity.
  - apply (expand_range v Hrange).
  - apply (expand_range v Hrange).
  - apply length_map.
Qed.

Lemma make_8bit_palette_expand_witness :
  nth_error (make_8bit_palette DEFAULT_PALETTE) 47 = Some (63 * 4 + 63 / 16)
  /\ 0 <= 63 * 4 + 63 / 16 <= 255
  /\ expand 63 = 255
  /\ length (make_8bit_palette DEFAULT_PALETTE) = length (concat DEFAULT_PALETTE).
Proof.
  apply (make_8bit_palette_expand DEFAULT_PALETTE 47 63); [reflexivity | lia].
Defined.

(** The expansion is applied to every channel, whatever its value; a byte
    above 63 expands beyond 255. *)
Lemma make_8bit_palette_any (pal6bit : list (list Z)) :
  make_8bit_palette pal6bit = map (fun v => v * 4 + v / 16) (concat pal6bit).
Proof. reflexivity. Qed.

Lemma palette_color_repeat (flat : list Z) (i : nat) :
  length flat = 48%nat -> (i < 256)%nat ->
  palette_color (list_repeat flat 16) i = palette_color flat (i mod 16).
Proof.
  intros Hlen Hi. unfold palette_color.
  assert (Hmod : forall c, (c < 3)%nat ->
            ((3 * i + c) mod 48 = 3 * (i mod 16) + c)%nat).
  { intros c Hc.
    rewrite (Nat.div_mod_eq i 16) at 1.
    replace (3 * (16 * (i / 16) + i mod 16) + c)%nat
      with ((3 * (i mod 16) + c) + (i / 16) * 48)%nat by lia.
    rewrite Nat.Div0.mod_add. apply Nat.mod_small.
    pose proof (Nat.mod_upper_bound i 16). lia. }
  rewrite !nth_error_list_repeat by (rewrite Hlen; lia).
  rewrite Hlen.
  pose proof (Hmod 0%nat ltac:(lia)) as H0.
  rewrite !Nat.add_0_r in H0.
  rewrite H0, (Hmod 1%nat), (Hmod 2%nat) by lia.
  reflexivity.
Qed.

(** C9: for a palette of 16 RGB triples, the table handed to the quantiser
    holds exactly 256 colours, and colour [i] equals colour [i mod 16], which
    is colour [i mod 16] of the expanded palette. *)
Theorem diffusion_table_repeats
  (pal6bit : list (list Z))
  (H16 : length pal6bit = 16%nat)
  (Hrgb : Forall (fun c => length c = 3%nat) pal6bit) :
  let table := diffusion_table (make_8bit_palette pal6bit) in
  length table = 768%nat
  /\ palette_size table = 256%nat
  /\ forall i, (i < 256)%nat ->
       palette_color table i = palette_color table (i mod 16)
       /\ palette_color table i
          = palette_color (make_8bit_palette pal6bit) (i mod 16)
       /\ palette_color table i <> None.
Proof.
  intros table.
  assert (Hlen : length (make_8bit_palette pal6bit) = 48%nat).
  { unfold make_8bit_palette.
    rewrite length_map, length_concat_triples by assumption. lia. }
  assert (Htab : length table = 768%nat).
  { unfold table, diffusion_table. rewrite length_list_repeat, Hlen.
    reflexivity. }
  split; [exact Htab|]. split.
  { unfold palette_size. rewrite Htab. reflexivity. }
  intros i Hi. unfold table, diffusion_table.
  assert (Hi16 : (i mod 16 < 16)%nat) by (apply Nat.mod_upper_bound; lia).
  rewrite (palette_color_repeat _ i Hlen Hi).
  split; [|split].
  - rewrite palette_color_repeat by (assumption || lia).
    rewrite Nat.Div0.mod_mod. reflexivity.
  - reflexivity.
  - unfold palette_color.
    destruct (nth_error (make_8bit_palette pal6bit) (3 * (i mod 16)))
      as [r|] eqn:Er;
      [|apply nth_error_None in Er; lia].
    destruct (nth_error (make_8bit_palette pal6bit) (3 * (i mod 16) + 1))
      as [g|] eqn:Eg;
      [|apply nth_error_None in Eg; lia].
    destruct (nth_error (make_8bit_palette pal6bit) (3 * (i mod 16) + 2))
      as [b|] eqn:Eb;
      [|apply nth_error_None in Eb; lia].
    discriminate.
Qed.

Lemma diffusion_table_repeats_witness :
  let table := diffusion_table (make_8bit_palette DEFAULT_PALETTE) in
  length table = 768%nat
  /\ palette_size table = 256%nat
  /\ forall i, (i < 256)%nat ->
       palette_color table i = palette_color table (i mod 16)
       /\ palette_color table i
          = palette_color (make_8bit_palette DEFAULT_PALETTE) (i mod 16)
       /\ palette_color table i <> None.
Proof.
  apply (diffusion_table_repeats DEFAULT_PALETTE).
  - reflexivity.
  - repeat constructor.
Defined.

(** ** Indexing *)

Lemma py_index_nat {A : Type} (l : list A) (i : nat) (a : A) :
  nth_error l i = Some a -> py_index l (Z.of_nat i) = ret a.
Proof.
  intros Hn. unfold py_index.
  assert (Hlt : (i < length l)%nat) by (apply nth_error_Some; congruence).
  destruct (Z.ltb_spec (Z.of_nat i) 0) as [?|_]; [lia|].
  destruct (Z.ltb_spec (Z.of_nat i) 0) as [?|_]; [lia|].
  destruct (Z.leb_spec (Z.of_nat (length l)) (Z.of_nat i)) as [?|_]; [lia|].
  simpl. rewrite Nat2Z.id, Hn. reflexivity.
Qed.

Lemma py_index_out {A : Type} (l : list A) (i : Z) :
  Z.of_nat (length l) <= i -> @py_index A l i = raise IndexError.
Proof.
  intros Hi. unfold py_index.
  destruct (Z.ltb_spec i 0) as [?|_]; [lia|].
  destruct (Z.ltb_spec i 0) as [?|_]; [lia|].
  destruct (Z.leb_spec (Z.of_nat (length l)) i) as [_|?]; [|lia].
  reflexivity.
Qed.

Lemma py_index_in {A : Type} (l : list A) (i : Z) :
  0 <= i < Z.of_nat (length l) ->
  exists a, py_index l i = ret a /\ nth_error l (Z.to_nat i) = Some a.
Proof.
  intros Hi.
  destruct (nth_error l (Z.to_nat i)) as [a|] eqn:E.
  - exists a. split; [|reflexivity].
    rewrite <- (Z2Nat.id i) by lia. apply py_index_nat. exact E.
  - apply nth_error_None in E. lia.
Qed.

(** ** Loading the palette *)

Lemma get_palette_loop_short (k : list Z) (n : nat) (j : Z) (pal : list (list Z)) :
  0 <= j <= Z.of_nat (length k) ->
  Z.of_nat (length k) < j + 3 * Z.of_nat n ->
  get_palette_loop k n j pal = raise IndexError.
Proof.
  revert j pal. induction n as [|n IH]; intros j pal Hj Hshort; [lia|].
  cbn [get_palette_loop].
  destruct (Z.le_gt_cases (Z.of_nat (length k)) j) as [H0|H0].
  { rewrite py_index_out by lia. reflexivity. }
  destruct (py_index_in k j ltac:(lia)) as (r & -> & _). cbn [bind].
  destruct (Z.le_gt_cases (Z.of_nat (length k)) (j + 1)) as [H1|H1].
  { rewrite py_index_out by lia. reflexivity. }
  destruct (py_index_in k (j + 1) ltac:(lia)) as (g & -> & _). cbn [bind].
  destruct (Z.le_gt_cases (Z.of_nat (length k)) (j + 2)) as [H2|H2].
  { rewrite py_index_out by lia. reflexivity. }
  destruct (py_index_in k (j + 2) ltac:(lia)) as (b & -> & _). cbn [bind].
  apply IH; lia.
Qed.

Lemma get_palette_loop_full (k : list Z) :
  length k = 48%nat ->
  exists pal, get_palette_loop k 16 0 [] = ret pal
              /\ length pal = 16%nat
              /\ Forall (fun c => length c = 3%nat) pal
              /\ concat pal = k.
Proof.
  intros Hlen.
  do 48 (destruct k as [|? k]; [discriminate Hlen|]).
  destruct k; [|discriminate Hlen].
  eexists. split; [reflexivity|].
  split; [reflexivity|]. split; [|reflexivity].
  repeat constructor.
Qed.

(** C3, as the script behaves: with a palette file given, the loader takes
    the first 48 bytes and groups them into 16 consecutive RGB triples; a
    file shorter than 48 bytes makes the indexing raise [IndexError], the
    run ends there and the file system is left as it was. *)
Theorem get_palette_reads_48
  (image : Type) (image_open : filesystem -> string -> result image)
  (resize : image -> Z -> Z -> result image)
  (quantize_image : image -> list Z -> result pimage)
  (fs : filesystem) (a : args) (path : string) (content : list byte)
  (Hpath : palette a = Some path)
  (Hfile : fs path = Some content) :
  ((48 <= length content)%nat ->
     exists pal, get_palette fs a = ret pal
       /\ length pal = 16%nat
       /\ Forall (fun c => length c = 3%nat) pal
       /\ concat pal = map byte_to_Z (firstn 48 content))
  /\ ((length content < 48)%nat ->
        get_palette fs a = raise IndexError
        /\ main image image_open resize quantize_image fs a
           = (fs, raise IndexError)).
Proof.
  unfold main, get_palette. rewrite Hpath, Hfile. split.
  - intros Hlen. apply get_palette_loop_full.
    rewrite length_map, length_firstn. lia.
  - intros Hlen.
    rewrite get_palette_loop_short.
    + split; reflexivity.
    + lia.
    + rewrite length_map, length_firstn. lia.
Qed.

Lemma get_palette_reads_48_witness :
  ((48 <= length (repeat x00 30))%nat ->
     exists pal, get_palette fs_short_palette args_short_palette = ret pal
       /\ length pal = 16%nat
       /\ Forall (fun c => length c = 3%nat) pal
       /\ concat pal = map byte_to_Z (firstn 48 (repeat x00 30)))
  /\ ((length (repeat x00 30) < 48)%nat ->
        get_palette fs_short_palette args_short_palette = raise IndexError
        /\ main unit stub_open stub_resize (stub_quantize [])
             fs_short_palette args_short_palette
           = (fs_short_palette, raise IndexError)).
Proof.
  apply (get_palette_reads_48 unit stub_open stub_resize (stub_quantize [])
           fs_short_palette args_short_palette "short.pal"%string
           (repeat x00 30));
    reflexivity.
Defined.

(** C3 as the specification words it fails: a palette file of 30 bytes ends the
    run with [IndexError], not with [MalformedPaletteError]. *)
Lemma get_palette_short_file_counterexample :
  get_palette fs_short_palette args_short_palette = raise IndexError
  /\ get_palette fs_short_palette args_short_palette
     <> raise MalformedPaletteError.
Proof. split; [reflexivity | discriminate]. Qed.

(** ** Parsing the gradient *)

Lemma py_int_cases (s : string) :
  (exists z, py_int s = ret z) \/ py_int s = raise ValueError.
Proof.
  unfold py_int.
  destruct (match lstrip (list_ascii_of_string s) with
            | [] => (1, lstrip (list_ascii_of_string s))
            | c :: l' =>
                if Ascii.eqb c "-" then (-1, l')
                else if Ascii.eqb c "+" then (1, l')
                else (1, lstrip (list_ascii_of_string s))
            end) as [sign body].
  destruct (parse_unsigned body) as [[v rest]|]; [|right; reflexivity].
  destruct (forallb is_space rest); [left; eexists|right]; reflexivity.
Qed.

Lemma mapM_inr {A B : Type} (f : A -> result B) (l : list A) (bs : list B) :
  mapM f l = inr bs -> Forall2 (fun x b => f x = inr b) l bs.
Proof.
  revert bs. induction l as [|x l IH]; intros bs H; simpl in H.
  - injection H as <-. constructor.
  - destruct (f x) as [e|b] eqn:Ex; [discriminate|]. simpl in H.
    destruct (mapM f l) as [e|bs'] eqn:El; [discriminate|]. simpl in H.
    injection H as <-. constructor; [exact Ex | apply IH; reflexivity].
Qed.

Lemma mapM_inl {A B : Type} (f : A -> result B) (l : list A) (e : exn) :
  mapM f l = inl e -> Exists (fun x => f x = inl e) l.
Proof.
  induction l as [|x l IH]; intros H; simpl in H; [discriminate|].
  destruct (f x) as [e'|b] eqn:Ex.
  - injection H as <-. left. exact Ex.
  - simpl in H. destruct (mapM f l) as [e'|bs'] eqn:El; [|discriminate].
    right. apply IH. exact H.
Qed.

Lemma py_split_nonempty (sep : ascii) (s : string) : py_split sep s <> [].
Proof.
  destruct s as [|c s]; simpl; [discriminate|].
  destruct (Ascii.eqb c sep); [discriminate|].
  destruct (py_split sep s); discriminate.
Qed.

(** C1, as the script behaves: parsing fails exactly when some token
    between commas is not an integer literal, and then with [ValueError];
    otherwise it returns one integer per token, however few.  The one-entry
    list ["1"] is accepted and gives [[1]]. *)
Theorem get_chars_outcome (a : args) :
  match get_chars a with
  | inl e =>
      e = ValueError
      /\ Exists (fun t => py_int t = raise ValueError) (py_split "," (chars a))
  | inr l =>
      Forall2 (fun t z => py_int t = ret z) (py_split "," (chars a)) l
      /\ (1 <= length l)%nat
  end
  /\ get_chars args_single_char = ret [1]
  /\ get_chars args_bad_char = raise ValueError.
Proof.
  split; [|split; reflexivity].
  unfold get_chars.
  destruct (mapM py_int (py_split "," (chars a))) as [e|l] eqn:E.
  - apply mapM_inl in E.
    assert (He : e = ValueError).
    { apply Exists_exists in E. destruct E as (t & _ & Ht).
      destruct (py_int_cases t) as [[z Hz]|Hv]; unfold ret, raise in *;
        congruence. }
    subst e. split; [reflexivity | exact E].
  - apply mapM_inr in E. split; [exact E|].
    pose proof (py_split_nonempty "," (chars a)) as Hne.
    destruct E; [contradiction | simpl; lia].
Qed.

(** C1 as the specification words it fails: [--chars "1"] is accepted. *)
Lemma get_chars_single_entry_counterexample :
  get_chars args_single_char = ret [1]
  /\ get_chars args_single_char <> raise InvalidGradientError.
Proof. split; [reflexivity | discriminate]. Qed.

(** ** The binary writer *)

Lemma byte_to_Z_of_Z (z : Z) : byte_to_Z (byte_of_Z z) = z mod 256.
Proof.
  unfold byte_to_Z, byte_of_Z.
  assert (Hm : 0 <= z mod 256 < 256) by (apply Z.mod_pos_bound; lia).
  destruct (Byte.of_N (Z.to_N (z mod 256))) as [b|] eqn:E.
  - apply Byte.to_of_N in E. rewrite E. apply Z2N.id. lia.
  - apply Byte.of_N_None_iff in E. lia.
Qed.

Lemma byte_to_Z_of_Z_small (z : Z) :
  0 <= z < 256 -> byte_to_Z (byte_of_Z z) = z.
Proof. intros Hz. rewrite byte_to_Z_of_Z. apply Z.mod_small. exact Hz. Qed.

Lemma length_le_bytes (n : nat) (v : Z) : length (le_bytes n v) = n.
Proof.
  revert v. induction n as [|n IH]; intros v; simpl; [reflexivity|].
  rewrite IH. reflexivity.
Qed.

Lemma pack_uint16 (v : Z) :
  0 <= v < 65536 ->
  exists bs, pack_uint 2 v = ret bs
             /\ map byte_to_Z bs = [v mod 256; v / 256].
Proof.
  intros Hv. unfold pack_uint.
  change (2 ^ (8 * Z.of_nat 2)) with 65536.
  destruct (Z.leb_spec 0 v) as [_|?]; [|lia].
  destruct (Z.ltb_spec v 65536) as [_|?]; [|lia].
  eexists. split; [reflexivity|]. simpl.
  rewrite !byte_to_Z_of_Z. f_equal. f_equal.
  apply Z.mod_small. split.
  - apply Z.div_pos; lia.
  - apply Z.div_lt_upper_bound; lia.
Qed.






(** ** Ranking: order and tie-break *)

Lemma insert_desc_In (x y : N * nat) (l : list (N * nat)) :
  In y (insert_desc x l) <-> y = x \/ In y l.
Proof.
  induction l as [|z l IH]; simpl.
  - intuition congruence.
  - destruct (fst x <? fst z)%N; simpl; rewrite ?IH; intuition congruence.
Qed.

Lemma sorted_desc_In (y : N * nat) (l : list (N * nat)) :
  In y (sorted_desc l) <-> In y l.
Proof.
  induction l as [|x l IH]; simpl; [reflexivity|].
  rewrite insert_desc_In, IH. intuition congruence.
Qed.

Lemma length_insert_desc (x : N * nat) (l : list (N * nat)) :
  length (insert_desc x l) = S (length l).
Proof.
  induction l as [|z l IH]; simpl; [reflexivity|].
  destruct (fst x <? fst z)%N; simpl; [rewrite IH|]; reflexivity.
Qed.

Lemma length_sorted_desc (l : list (N * nat)) :
  length (sorted_desc l) = length l.
Proof.
  induction l as [|x l IH]; simpl; [reflexivity|].
  rewrite length_insert_desc, IH. reflexivity.
Qed.

Lemma insert_desc_sorted (x : N * nat) (l : list (N * nat)) :
  StronglySorted ranks_before l ->
  Forall (fun y => (snd x < snd y)%nat) l ->
  StronglySorted ranks_before (insert_desc x l).
Proof.
  induction 1 as [|z l Hl IH Hz]; intros Hx; simpl.
  - repeat constructor.
  - inversion Hx as [|? ? Hxz Hxl]; subst.
    destruct (N.ltb_spec (fst x) (fst z)) as [Hlt|Hge].
    + constructor; [apply IH; exact Hxl|].
      apply Forall_forall. intros y Hy. apply insert_desc_In in Hy.
      destruct Hy as [->|Hy].
      * left. exact Hlt.
      * rewrite Forall_forall in Hz. apply Hz. exact Hy.
    + constructor; [constructor; assumption|].
      assert (Hxz' : ranks_before x z).
      { unfold ranks_before. destruct (N.eq_dec (fst z) (fst x)); [right|left];
          [split; assumption | lia]. }
      constructor; [exact Hxz'|].
      apply Forall_forall. intros y Hy.
      rewrite Forall_forall in Hz, Hxl.
      specialize (Hz y Hy). specialize (Hxl y Hy).
      unfold ranks_before in *.
      destruct (N.eq_dec (fst y) (fst x)); [right; split; assumption|left].
      lia.
Qed.

Lemma sorted_desc_sorted (l : list (N * nat)) :
  StronglySorted (fun x y => (snd x < snd y)%nat) l ->
  StronglySorted ranks_before (sorted_desc l).
Proof.
  induction 1 as [|x l Hl IH Hx]; simpl; [constructor|].
  apply insert_desc_sorted; [exact IH|].
  apply Forall_forall. intros y Hy. apply (proj1 (sorted_desc_In _ _)) in Hy.
  rewrite Forall_forall in Hx. apply Hx. exact Hy.
Qed.

Lemma combine_seq_In (l : list N) (s k : nat) (c : N) :
  In (c, k) (combine l (seq s (length l)))
  <-> (s <= k)%nat /\ nth_error l (k - s) = Some c.
Proof.
  revert s. induction l as [|c0 l IH]; intros s; simpl.
  - split; [contradiction|]. intros [_ H]. destruct (k - s)%nat; discriminate.
  - rewrite IH. split.
    + intros [H|[Hle Hn]].
      * injection H as <- <-. rewrite Nat.sub_diag. split; [lia|reflexivity].
      * split; [lia|]. replace (k - s)%nat with (S (k - S s)) by lia.
        exact Hn.
    + intros [Hle Hn]. destruct (Nat.eq_dec k s) as [->|Hne].
      * rewrite Nat.sub_diag in Hn. injection Hn as <-. left. reflexivity.
      * right. split; [lia|].
        replace (k - s)%nat with (S (k - S s)) in Hn by lia. exact Hn.
Qed.

Lemma combine_seq_sorted (l : list N) (s : nat) :
  StronglySorted (fun x y => (snd x < snd y)%nat)
                 (combine l (seq s (length l))).
Proof.
  revert s. induction l as [|c0 l IH]; intros s; simpl; constructor.
  - apply IH.
  - apply Forall_forall. intros [c k] Hy. apply combine_seq_In in Hy.
    simpl. lia.
Qed.

Lemma ranking_In (hist : list N) (c : N) (k : nat) :
  In (c, k) (ranking hist) <-> nth_error hist k = Some c.
Proof.
  unfold ranking, zip_range. rewrite sorted_desc_In, combine_seq_In.
  rewrite Nat.sub_0_r. intuition lia.
Qed.

Lemma ranking_sorted (hist : list N) :
  StronglySorted ranks_before (ranking hist).
Proof. apply sorted_desc_sorted, combine_seq_sorted. Qed.

Lemma length_ranking (hist : list N) : length (ranking hist) = length hist.
Proof.
  unfold ranking, zip_range.
  rewrite length_sorted_desc, length_combine, length_seq. lia.
Qed.

(** What the first two places of the ranking hold. *)
Lemma top_two_spec (hist : list N) :
  (2 <= length hist)%nat ->
  exists wc wi sc si rest,
    ranking hist = (wc, wi) :: (sc, si) :: rest
    /\ top_two hist = ret ((wc, wi), (sc, si))
    /\ nth_error hist wi = Some wc
    /\ nth_error hist si = Some sc
    /\ wi <> si
    /\ ranks_before (wc, wi) (sc, si)
    /\ (forall k c, nth_error hist k = Some c -> k <> wi ->
          ranks_before (wc, wi) (c, k))
    /\ (forall k c, nth_error hist k = Some c -> k <> wi -> k <> si ->
          ranks_before (sc, si) (c, k)).
Proof.
  intros Hlen.
  pose proof (length_ranking hist) as HL.
  pose proof (ranking_sorted hist) as HS.
  pose proof (ranking_In hist) as HI.
  unfold top_two.
  destruct (ranking hist) as [|[wc wi] [|[sc si] rest]];
    simpl in HL; try lia.
  inversion HS as [|? ? HS1 HF1]; subst.
  inversion HS1 as [|? ? HS2 HF2]; subst.
  rewrite Forall_forall in HF1, HF2.
  assert (Hw : nth_error hist wi = Some wc) by (apply HI; left; reflexivity).
  assert (Hs : nth_error hist si = Some sc)
    by (apply HI; right; left; reflexivity).
  assert (Hws : ranks_before (wc, wi) (sc, si))
    by (apply HF1; left; reflexivity).
  exists wc, wi, sc, si, rest.
  split; [reflexivity|]. split.
  { assert (H0 : py_index ((wc, wi) :: (sc, si) :: rest) 0 = ret (wc, wi))
      by (apply (py_index_nat _ 0%nat); reflexivity).
    assert (H1 : py_index ((wc, wi) :: (sc, si) :: rest) 1 = ret (sc, si))
      by (apply (py_index_nat _ 1%nat); reflexivity).
    rewrite H0, H1. reflexivity. }
  split; [exact Hw|]. split; [exact Hs|].
  split.
  { intros ->. unfold ranks_before in Hws. simpl in Hws.
    assert (wc = sc) by congruence. lia. }
  split; [exact Hws|]. split.
  - intros k c Hk Hne. apply HF1. apply (proj2 (HI _ _)) in Hk.
    destruct Hk as [Hk|Hk]; [congruence | exact Hk].
  - intros k c Hk Hne1 Hne2. apply HF2. apply (proj2 (HI _ _)) in Hk.
    destruct Hk as [Hk|[Hk|Hk]]; [congruence | congruence | exact Hk].
Qed.

Lemma rank_color (hist : list N) (pal : list (list Z)) (mzx_chars : list Z)
  (w s : N * nat) (glyph color : Z) :
  top_two hist = ret (w, s) ->
  rank_histogram_to_col_and_char hist pal mzx_chars = ret (glyph, color) ->
  color = Z.of_nat (snd w) mod 16 + (Z.of_nat (snd s) mod 16) * 16.
Proof.
  intros Htop. unfold rank_histogram_to_col_and_char. rewrite Htop.
  cbn [bind ret].
  destruct (winner_ratio w s) as [e|r]; [discriminate|]. cbn [bind].
  destruct (winner_char_index r mzx_chars) as [e|i]; [discriminate|].
  cbn [bind].
  destruct (py_index mzx_chars i) as [e|c]; [discriminate|]. cbn [bind ret].
  intros H. injection H as _ <-. reflexivity.
Qed.

(** C4: the ranking lists every bin once, larger counts first and equal
    counts by rising bin index.  So the winner is the lowest-indexed bin of
    the top count, the runner-up the lowest-indexed best bin among the
    others; when two bins share the top count the lower one wins and the
    runner-up is the next bin with that count.  The colour byte is fixed
    by these two indices. *)
Theorem ranking_tie_break (hist : list N) (Hlen : (2 <= length hist)%nat) :
  length (ranking hist) = length hist
  /\ StronglySorted ranks_before (ranking hist)
  /\ (forall c k, In (c, k) (ranking hist) <-> nth_error hist k = Some c)
  /\ exists wc wi sc si,
       top_two hist = ret ((wc, wi), (sc, si))
       /\ nth_error hist wi = Some wc
       /\ nth_error hist si = Some sc
       /\ wi <> si
       /\ (forall k c, nth_error hist k = Some c ->
             (c <= wc)%N /\ (c = wc -> (wi <= k)%nat))
       /\ (forall k c, nth_error hist k = Some c -> k <> wi ->
             (c <= sc)%N /\ (c = sc -> (si <= k)%nat))
       /\ (forall i j c, (i < j)%nat ->
             nth_error hist i = Some c -> nth_error hist j = Some c ->
             (forall k c', nth_error hist k = Some c' -> (c' <= c)%N) ->
             wc = c /\ sc = c /\ (wi <= i)%nat /\ (wi < si)%nat
             /\ (si <= j)%nat)
       /\ (forall pal mzx_chars glyph color,
             rank_histogram_to_col_and_char hist pal mzx_chars
             = ret (glyph, color) ->
             color = Z.of_nat wi mod 16 + (Z.of_nat si mod 16) * 16).
Proof.
  split; [apply length_ranking|]. split; [apply ranking_sorted|].
  split; [apply ranking_In|].
  destruct (top_two_spec hist Hlen)
    as (wc & wi & sc & si & rest & _ & Htop & Hw & Hs & Hne & Hws & HW & HS).
  unfold ranks_before in Hws, HW, HS. simpl in Hws, HW, HS.
  assert (Hwin : forall k c, nth_error hist k = Some c ->
            (c <= wc)%N /\ (c = wc -> (wi <= k)%nat)).
  { intros k c Hk. destruct (Nat.eq_dec k wi) as [->|Hkw].
    - assert (c = wc) by congruence. subst c. split; [lia|]. intros _. lia.
    - specialize (HW k c Hk Hkw). lia. }
  assert (Hsec : forall k c, nth_error hist k = Some c -> k <> wi ->
            (c <= sc)%N /\ (c = sc -> (si <= k)%nat)).
  { intros k c Hk Hkw. destruct (Nat.eq_dec k si) as [->|Hks].
    - assert (c = sc) by congruence. subst c. split; [lia|]. intros _. lia.
    - specialize (HS k c Hk Hkw Hks). lia. }
  exists wc, wi, sc, si.
  split; [exact Htop|]. split; [exact Hw|]. split; [exact Hs|].
  split; [exact Hne|]. split; [exact Hwin|]. split; [exact Hsec|]. split.
  - intros i j c Hij Hi Hj Htopc.
    pose proof (Htopc wi wc Hw) as Hwc.
    pose proof (Hwin i c Hi) as [Hc1 Hc2].
    assert (wc = c) by lia. subst wc.
    specialize (Hc2 eq_refl).
    assert (Hjw : j <> wi) by lia.
    pose proof (Hsec j c Hj Hjw) as [Hd1 Hd2].
    pose proof (Htopc si sc Hs) as Hsc.
    assert (sc = c) by lia. subst sc.
    specialize (Hd2 eq_refl).
    repeat split; try lia.
  - intros pal mzx_chars glyph color Hr.
    apply (rank_color hist pal mzx_chars (wc, wi) (sc, si) glyph color Htop Hr).
Qed.

Lemma ranking_tie_break_witness :
  top_two hist_tied = ret ((56%N, 1%nat), (56%N, 3%nat))
  /\ length (ranking hist_tied) = 256%nat.
Proof.
  destruct (ranking_tie_break hist_tied ltac:(vm_compute; lia))
    as (Hl & _ & _ & _).
  split; [reflexivity | exact Hl].
Defined.

(** ** Rounding to the nearest integer *)

Lemma rne_spec (p q : Z) :
  0 < q ->
  - q <= 2 * (p - rne p q * q) <= q
  /\ (Z.abs (2 * (p - rne p q * q)) = q -> Z.even (rne p q) = true).
Proof.
  intros Hq. unfold rne.
  pose proof (Z.div_mod p q ltac:(lia)) as Hdm.
  pose proof (Z.mod_pos_bound p q Hq) as Hr.
  destruct (Z.ltb_spec (2 * (p mod q)) q) as [Hlt|Hge].
  { split; [nia|]. intros Habs. nia. }
  destruct (Z.ltb_spec q (2 * (p mod q))) as [Hgt|Hle].
  { split; [nia|]. intros Habs. nia. }
  destruct (Z.even (p / q)) eqn:Hev.
  { split; [nia|]. intros _. exact Hev. }
  split; [nia|]. intros _.
  rewrite Z.even_add, Hev. reflexivity.
Qed.

Lemma rne_mono (p1 q1 p2 q2 : Z) :
  0 < q1 -> 0 < q2 -> p1 * q2 <= p2 * q1 -> rne p1 q1 <= rne p2 q2.
Proof.
  intros Hq1 Hq2 Hle.
  destruct (rne_spec p1 q1 Hq1) as [[Hlo1 Hhi1] Hev1].
  destruct (rne_spec p2 q2 Hq2) as [[Hlo2 Hhi2] Hev2].
  set (n1 := rne p1 q1) in *. set (n2 := rne p2 q2) in *.
  destruct (Z.le_gt_cases n1 n2) as [H|Hgt]; [exact H|exfalso].
  (* (2 n1 - 1) q1 <= 2 p1 and 2 p2 <= (2 n2 + 1) q2 *)
  assert (H1 : (2 * n1 - 1) * q1 * q2 <= 2 * p1 * q2) by nia.
  assert (H2 : 2 * p2 * q1 <= (2 * n2 + 1) * q2 * q1) by nia.
  assert (H3 : (2 * n1 - 1) * (q1 * q2) <= (2 * n2 + 1) * (q1 * q2)) by nia.
  assert (Hqq : 0 < q1 * q2) by nia.
  assert (Hn : n1 = n2 + 1) by nia.
  assert (E1 : 2 * (p1 - n1 * q1) = - q1) by nia.
  assert (E2 : 2 * (p2 - n2 * q2) = q2) by nia.
  assert (Hev1' : Z.even n1 = true) by (apply Hev1; lia).
  assert (Hev2' : Z.even n2 = true) by (apply Hev2; lia).
  rewrite Hn, Z.even_add, Hev2' in Hev1'. discriminate.
Qed.

Lemma rne_exact (n q : Z) : 0 < q -> rne (n * q) q = n.
Proof.
  intros Hq. unfold rne.
  rewrite Z.div_mul, Z.mod_mul by lia.
  destruct (Z.ltb_spec (2 * 0) q); [reflexivity | lia].
Qed.

Lemma rne_ge_int (n p q : Z) : 0 < q -> n * q <= p -> n <= rne p q.
Proof.
  intros Hq H. rewrite <- (rne_exact n q Hq). apply rne_mono; nia.
Qed.

Lemma rne_le_int (n p q : Z) : 0 < q -> p <= n * q -> rne p q <= n.
Proof.
  intros Hq H. rewrite <- (rne_exact n q Hq). apply rne_mono; nia.
Qed.

(** ** The binary exponent *)

Lemma ilog2_nonneg_spec (p q : Z) :
  0 < p -> 0 < q -> 0 <= ilog2 p q ->
  q * 2 ^ ilog2 p q <= p < q * 2 ^ (ilog2 p q + 1).
Proof.
  intros Hp Hq. unfold ilog2.
  destruct (Z.log2_spec p Hp) as [Hp1 Hp2].
  destruct (Z.log2_spec q Hq) as [Hq1 Hq2].
  pose proof (Z.log2_nonneg p) as Hlp.
  pose proof (Z.log2_nonneg q) as Hlq.
  set (lp := Z.log2 p) in *. set (lq := Z.log2 q) in *.
  destruct (Z.leb_spec 0 (lp - lq)) as [Hd|Hd].
  - destruct (Z.ltb_spec p (q * 2 ^ (lp - lq))) as [Hb|Hb]; intros He.
    + replace (lp - lq - 1 + 1) with (lp - lq) by lia.
      split; [|exact Hb].
      assert (Hpow : 2 ^ lp = 2 ^ (lq + 1) * 2 ^ (lp - lq - 1)).
      { rewrite <- Z.pow_add_r by lia. f_equal. lia. }
      assert (0 < 2 ^ (lp - lq - 1)) by (apply Z.pow_pos_nonneg; lia).
      nia.
    + split; [exact Hb|].
      assert (Hpow : 2 ^ Z.succ lp = 2 ^ lq * 2 ^ (lp - lq + 1)).
      { rewrite <- Z.pow_add_r by lia. f_equal. lia. }
      assert (0 < 2 ^ (lp - lq + 1)) by (apply Z.pow_pos_nonneg; lia).
      nia.
  - destruct (p * 2 ^ (- (lp - lq)) <? q); intros He; lia.
Qed.

Lemma ilog2_upper (p q n : Z) :
  0 < p -> 0 < q -> 0 <= n -> p < q * 2 ^ (n + 1) -> ilog2 p q <= n.
Proof.
  intros Hp Hq Hn Hlt.
  destruct (Z.le_gt_cases (ilog2 p q) n) as [H|Hgt]; [exact H|exfalso].
  destruct (ilog2_nonneg_spec p q Hp Hq ltac:(lia)) as [Hlo _].
  assert (2 ^ (n + 1) <= 2 ^ ilog2 p q) by (apply Z.pow_le_mono_r; lia).
  nia.
Qed.

(** ** Rounding to binary64 *)

Lemma round_b64_pos (p q : Z) :
  0 < p -> 0 < q -> ilog2 p q <= 52 ->
  round_b64 p q
  = Dy (rne (p * 2 ^ (- Z.max (ilog2 p q - 52) (- 1074))) q)
       (Z.max (ilog2 p q - 52) (- 1074)).
Proof.
  intros Hp Hq Hl. unfold round_b64.
  destruct (Z.eqb_spec p 0) as [?|_]; [lia|].
  rewrite (Z.abs_eq p) by lia.
  set (E := Z.max (ilog2 p q - 52) (- 1074)).
  assert (HE : E <= 0) by (unfold E; lia).
  destruct (Z.leb_spec 0 E) as [H0|H0]; [|reflexivity].
  assert (E = 0) as -> by lia.
  change (- 0) with 0. rewrite Z.pow_0_r, !Z.mul_1_r. reflexivity.
Qed.

Lemma pow2_pos (n : Z) : 0 <= n -> 0 < 2 ^ n.
Proof. intros Hn. apply Z.pow_pos_nonneg; lia. Qed.

Lemma pow2_succ (n : Z) : 0 <= n -> 2 ^ (n + 1) = 2 * 2 ^ n.
Proof. intros Hn. rewrite Z.pow_add_r by lia. change (2 ^ 1) with 2. lia. Qed.

Lemma overflows_small (M E : Z) :
  E <= 0 -> 0 <= M -> M <= 2 ^ 53 * 2 ^ (- E) -> overflows (Dy M E) = false.
Proof.
  intros HE HM Hle. unfold overflows. cbn [Dnum Dexp].
  rewrite (Z.abs_eq M) by lia.
  assert (Hbig : 2 ^ 53 < 2 ^ 1024) by (apply Z.pow_lt_mono_r; lia).
  pose proof (pow2_pos (- E) ltac:(lia)) as Hpos.
  destruct (Z.leb_spec 0 E) as [H0|H0].
  - assert (E = 0) by lia. subst E. change (- 0) with 0 in *.
    rewrite Z.pow_0_r in *. apply Z.leb_gt. lia.
  - apply Z.leb_gt. nia.
Qed.

(** The quotient of the top count by the top two counts. *)
Lemma truediv_ratio (a b : Z) :
  0 < a -> 0 <= b <= a ->
  exists M E,
    int_truediv a (a + b) = ret (Dy M E)
    /\ E <= - 52
    /\ 2 ^ (- E) <= 2 * M
    /\ M <= 2 ^ (- E)
    /\ (b = 0 -> M = 2 ^ (- E)).
Proof.
  intros Ha Hb. unfold int_truediv.
  destruct (Z.eqb_spec (a + b) 0) as [?|_]; [lia|].
  rewrite (Z.abs_eq (a + b)), (Z.sgn_pos (a + b)), Z.mul_1_r by lia.
  assert (Hl : ilog2 a (a + b) <= 0).
  { apply ilog2_upper; lia. }
  rewrite round_b64_pos by lia.
  set (E := Z.max (ilog2 a (a + b) - 52) (- 1074)).
  assert (HE : E <= - 52) by (unfold E; lia).
  set (M := rne (a * 2 ^ (- E)) (a + b)).
  pose proof (pow2_pos (- E - 1) ltac:(lia)) as Ht.
  assert (Hpow : 2 ^ (- E) = 2 * 2 ^ (- E - 1)).
  { rewrite <- pow2_succ by lia. f_equal. lia. }
  assert (Hlo : 2 ^ (- E - 1) <= M).
  { apply rne_ge_int; [lia|]. rewrite Hpow. nia. }
  assert (Hhi : M <= 2 ^ (- E)).
  { apply rne_le_int; [lia|]. nia. }
  assert (Hov : overflows (Dy M E) = false).
  { apply overflows_small; [lia | lia |].
    pose proof (pow2_pos 53 ltac:(lia)). nia. }
  exists M, E. rewrite Hov.
  repeat split; try lia.
  intros ->. unfold M. rewrite Z.add_0_r, Z.mul_comm.
  apply rne_exact. lia.
Qed.

(** An integer below [2^53] converts without rounding. *)
Lemma float_of_int_exact (k : Z) :
  0 <= k < 2 ^ 53 ->
  exists M E, float_of_int k = ret (Dy M E) /\ E <= 0 /\ M = k * 2 ^ (- E).
Proof.
  intros Hk. unfold float_of_int.
  destruct (Z.eq_dec k 0) as [->|Hne].
  { exists 0, 0. split; [reflexivity|]. split; [lia | reflexivity]. }
  assert (Hl : ilog2 k 1 <= 52).
  { apply ilog2_upper; lia. }
  rewrite round_b64_pos by lia.
  set (E := Z.max (ilog2 k 1 - 52) (- 1074)).
  assert (HE : E <= 0) by (unfold E; lia).
  pose proof (pow2_pos (- E) ltac:(lia)) as Ht.
  assert (HM : rne (k * 2 ^ (- E)) 1 = k * 2 ^ (- E)).
  { rewrite <- (Z.mul_1_r (k * 2 ^ (- E))) at 1. apply rne_exact. lia. }
  rewrite HM.
  assert (Hov : overflows (Dy (k * 2 ^ (- E)) E) = false).
  { apply overflows_small; [lia | nia | nia]. }
  exists (k * 2 ^ (- E)), E. rewrite Hov.
  repeat split; lia.
Qed.

(** The product of a ratio in [1/2, 1] and an integer [k] below [2^53]
    rounds to a float in [k/2, k]. *)
Lemma float_mul_ratio (M1 E1 M2 E2 k : Z) :
  E1 <= 0 -> 2 ^ (- E1) <= 2 * M1 -> M1 <= 2 ^ (- E1) ->
  E2 <= 0 -> M2 = k * 2 ^ (- E2) -> 0 <= k < 2 ^ 53 ->
  exists M E,
    float_mul (Dy M1 E1) (Dy M2 E2) = Finite (Dy M E)
    /\ E <= 0
    /\ k * 2 ^ (- E) <= 2 * M
    /\ M <= k * 2 ^ (- E)
    /\ (M1 = 2 ^ (- E1) -> M = k * 2 ^ (- E)).
Proof.
  intros HE1 Hlo1 Hhi1 HE2 HM2 Hk. unfold float_mul. cbn [Dnum Dexp].
  pose proof (pow2_pos (- E1) ltac:(lia)) as Hq1.
  pose proof (pow2_pos (- E2) ltac:(lia)) as Hq2.
  assert (Hq : 2 ^ (- (E1 + E2)) = 2 ^ (- E1) * 2 ^ (- E2)).
  { rewrite <- Z.pow_add_r by lia. f_equal. lia. }
  assert (Hsame : (if 0 <=? E1 + E2
                   then round_b64 (M1 * M2 * 2 ^ (E1 + E2)) 1
                   else round_b64 (M1 * M2) (2 ^ (- (E1 + E2))))
                  = round_b64 (M1 * M2) (2 ^ (- (E1 + E2)))).
  { destruct (Z.leb_spec 0 (E1 + E2)) as [H0|H0]; [|reflexivity].
    assert (E1 + E2 = 0) as -> by lia. change (- 0) with 0.
    rewrite Z.pow_0_r, Z.mul_1_r. reflexivity. }
  rewrite Hsame, Hq.
  set (q := 2 ^ (- E1) * 2 ^ (- E2)).
  assert (Hqpos : 0 < q) by (unfold q; nia).
  set (p := M1 * M2).
  assert (Hp_hi : p <= k * q) by (unfold p, q; subst M2; nia).
  assert (Hp_lo : k * q <= 2 * p) by (unfold p, q; subst M2; nia).
  destruct (Z.eq_dec k 0) as [Hk0|Hk0].
  { assert (p = 0) as -> by lia. subst k.
    exists 0, 0. split; [reflexivity|]. repeat split; lia. }
  assert (Hppos : 0 < p) by nia.
  assert (Hl : ilog2 p q <= 52).
  { apply ilog2_upper; try lia. change (52 + 1) with 53. nia. }
  rewrite round_b64_pos by lia.
  set (E := Z.max (ilog2 p q - 52) (- 1074)).
  assert (HE : E <= 0) by (unfold E; lia).
  pose proof (pow2_pos (- E) ltac:(lia)) as Ht.
  set (M := rne (p * 2 ^ (- E)) q).
  assert (Hhi : M <= k * 2 ^ (- E)).
  { apply rne_le_int; [lia|]. nia. }
  assert (Hlo : k * 2 ^ (- E) <= 2 * M).
  { destruct (Z.eq_dec E 0) as [HE0|HE0].
    - assert (Hil : ilog2 p q = 52) by (unfold E in HE0; lia).
      destruct (ilog2_nonneg_spec p q Hppos Hqpos ltac:(lia)) as [Hge _].
      rewrite Hil in Hge.
      assert (2 ^ 52 <= M).
      { apply rne_ge_int; [lia|]. rewrite HE0. change (- 0) with 0.
        rewrite Z.pow_0_r. lia. }
      rewrite HE0. change (- 0) with 0. rewrite Z.pow_0_r.
      change (2 ^ 53) with (2 * 2 ^ 52) in Hk. lia.
    - pose proof (pow2_pos (- E - 1) ltac:(lia)) as Ht1.
      assert (Hpow : 2 ^ (- E) = 2 * 2 ^ (- E - 1)).
      { rewrite <- pow2_succ by lia. f_equal. lia. }
      assert (k * 2 ^ (- E - 1) <= M).
      { apply rne_ge_int; [lia|]. rewrite Hpow. nia. }
      rewrite Hpow. lia. }
  assert (HM0 : 0 <= M).
  { apply (rne_ge_int 0); [lia|]. nia. }
  assert (Hov : overflows (Dy M E) = false).
  { apply overflows_small; [lia | lia | nia]. }
  exists M, E. rewrite Hov.
  repeat split; try lia.
  intros H1. unfold M.
  assert (Hpk : p = k * q) by (unfold p, q; subst M1 M2; nia).
  rewrite Hpk.
  replace (k * q * 2 ^ (- E)) with (k * 2 ^ (- E) * q) by lia.
  apply rne_exact. lia.
Qed.

(** Rounding such a float gives an index between [round(k/2)] and [k]. *)
Lemma py_round_ratio (M E k : Z) :
  E <= 0 -> 0 <= k -> k * 2 ^ (- E) <= 2 * M -> M <= k * 2 ^ (- E) ->
  exists i,
    py_round (Finite (Dy M E)) = ret i
    /\ rne k 2 <= i <= k
    /\ (M = k * 2 ^ (- E) -> i = k).
Proof.
  intros HE Hk Hlo Hhi. unfold py_round.
  pose proof (pow2_pos (- E) ltac:(lia)) as Ht.
  destruct (Z.leb_spec 0 E) as [H0|H0].
  - assert (E = 0) by lia. subst E. change (- 0) with 0 in *.
    rewrite Z.pow_0_r, Z.mul_1_r in *.
    exists M. split; [reflexivity|]. split; [|lia].
    split; [|lia]. apply rne_le_int; lia.
  - exists (rne M (2 ^ (- E))). split; [reflexivity|]. split; [split|].
    + apply rne_mono; lia.
    + apply rne_le_int; lia.
    + intros ->. apply rne_exact. lia.
Qed.

Lemma py_round_half_rne (k : Z) :
  0 <= k < 2 ^ 53 -> py_round_half k = ret (rne k 2).
Proof.
  intros Hk. unfold py_round_half, int_truediv.
  change (2 =? 0) with false. cbv iota.
  change (Z.sgn 2) with 1. change (Z.abs 2) with 2. rewrite Z.mul_1_r.
  destruct (Z.eq_dec k 0) as [->|Hne]; [reflexivity|].
  assert (Hl : ilog2 k 2 <= 51).
  { apply ilog2_upper; lia. }
  rewrite round_b64_pos by lia.
  set (E := Z.max (ilog2 k 2 - 52) (- 1074)).
  assert (HE : E <= - 1) by (unfold E; lia).
  pose proof (pow2_pos (- E - 1) ltac:(lia)) as Ht.
  assert (Hpow : 2 ^ (- E) = 2 * 2 ^ (- E - 1)).
  { rewrite <- pow2_succ by lia. f_equal. lia. }
  assert (HM : rne (k * 2 ^ (- E)) 2 = k * 2 ^ (- E - 1)).
  { rewrite Hpow.
    replace (k * (2 * 2 ^ (- E - 1))) with (k * 2 ^ (- E - 1) * 2) by lia.
    apply rne_exact. lia. }
  rewrite HM.
  assert (Hov : overflows (Dy (k * 2 ^ (- E - 1)) E) = false).
  { apply overflows_small; [lia | nia | nia]. }
  rewrite Hov. cbn [bind ret py_round].
  destruct (Z.leb_spec 0 E) as [?|_]; [lia|].
  f_equal. rewrite Hpow. apply Z.le_antisymm; apply rne_mono; lia.
Qed.

Lemma total_pos (hist : list N) :
  (0 < total hist)%N ->
  exists k c, nth_error hist k = Some c /\ (0 < c)%N.
Proof.
  induction hist as [|c hist IH]; simpl; intros H; [lia|].
  destruct (N.eq_dec c 0) as [->|Hc].
  - destruct (IH ltac:(lia)) as (k & c & Hk & Hpos).
    exists (S k), c. split; assumption.
  - exists 0%nat, c. split; [reflexivity | lia].
Qed.

(** ** The cell reducer on a cell with pixels *)

Lemma reducer_core (hist : list N) (pal : list (list Z)) (mzx_chars : list Z)
  (wc : N) (wi : nat) (sc : N) (si : nat) :
  top_two hist = ret ((wc, wi), (sc, si)) ->
  (sc <= wc)%N -> (0 < wc)%N ->
  (1 <= length mzx_chars)%nat ->
  Z.of_nat (length mzx_chars) <= 2 ^ 53 ->
  exists M E index glyph,
    winner_ratio (wc, wi) (sc, si) = ret (Dy M E)
    /\ E <= - 52
    /\ 2 ^ (- E) <= 2 * M
    /\ M <= 2 ^ (- E)
    /\ (sc = 0%N -> M = 2 ^ (- E))
    /\ winner_char_index (Dy M E) mzx_chars = ret index
    /\ rne (Z.of_nat (length mzx_chars) - 1) 2 <= index
    /\ 0 <= index <= Z.of_nat (length mzx_chars) - 1
    /\ (sc = 0%N -> index = Z.of_nat (length mzx_chars) - 1)
    /\ py_index mzx_chars index = ret glyph
    /\ nth_error mzx_chars (Z.to_nat index) = Some glyph
    /\ rank_histogram_to_col_and_char hist pal mzx_chars
       = ret (glyph, Z.of_nat wi mod 16 + (Z.of_nat si mod 16) * 16).
Proof.
  intros Htop Hle Hpos Hlen Hfits.
  set (k := Z.of_nat (length mzx_chars) - 1).
  assert (Hk : 0 <= k < 2 ^ 53) by (unfold k; lia).
  destruct (truediv_ratio (Z.of_N wc) (Z.of_N sc) ltac:(lia) ltac:(lia))
    as (M & E & Hdiv & HE & Hlo & Hhi & Hone).
  destruct (float_of_int_exact k Hk) as (M2 & E2 & Hconv & HE2 & HM2).
  destruct (float_mul_ratio M E M2 E2 k ltac:(lia) Hlo Hhi HE2 HM2 Hk)
    as (M3 & E3 & Hmul & HE3 & Hlo3 & Hhi3 & Hone3).
  destruct (py_round_ratio M3 E3 k HE3 ltac:(lia) Hlo3 Hhi3)
    as (index & Hround & Hidx & Hlast).
  assert (Hidx0 : 0 <= rne k 2) by (apply (rne_ge_int 0); lia).
  destruct (py_index_in mzx_chars index ltac:(lia)) as (glyph & Hg & Hnth).
  assert (Hratio : winner_ratio (wc, wi) (sc, si) = ret (Dy M E)).
  { unfold winner_ratio. cbn [fst]. exact Hdiv. }
  assert (Hindex : winner_char_index (Dy M E) mzx_chars = ret index).
  { unfold winner_char_index. fold k. rewrite Hconv. cbn [bind ret].
    rewrite Hmul. exact Hround. }
  exists M, E, index, glyph.
  split; [exact Hratio|]. split; [exact HE|]. split; [exact Hlo|].
  split; [exact Hhi|]. split; [intros Hs; apply Hone; lia|].
  split; [exact Hindex|]. split; [lia|]. split; [lia|].
  split; [intros Hs; apply Hlast, Hone3, Hone; lia|].
  split; [exact Hg|]. split; [exact Hnth|].
  unfold rank_histogram_to_col_and_char.
  rewrite Htop. cbn [bind ret snd].
  rewrite Hratio. cbn [bind ret]. rewrite Hindex. cbn [bind ret].
  rewrite Hg. reflexivity.
Qed.

Lemma dy_Q_neg (M E : Z) :
  E < 0 -> dy_Q (Dy M E) = Qmake M (Z.to_pos (2 ^ (- E))).
Proof.
  intros HE. unfold dy_Q. cbn [Dnum Dexp].
  destruct (Z.leb_spec 0 E) as [?|_]; [lia | reflexivity].
Qed.

Lemma dy_Q_bounds (M E : Z) :
  E < 0 -> 2 ^ (- E) <= 2 * M -> M <= 2 ^ (- E) ->
  (1 # 2 <= dy_Q (Dy M E))%Q /\ (0 < dy_Q (Dy M E))%Q
  /\ (dy_Q (Dy M E) <= 1)%Q
  /\ (M = 2 ^ (- E) -> (dy_Q (Dy M E) == 1)%Q).
Proof.
  intros HE Hlo Hhi. rewrite dy_Q_neg by assumption.
  pose proof (pow2_pos (- E) ltac:(lia)) as Ht.
  unfold Qle, Qlt, Qeq. cbn [Qnum Qden].
  rewrite Z2Pos.id by assumption.
  repeat split; try lia.
Qed.

Lemma top_two_length (hist : list N) (w s : N * nat) :
  top_two hist = ret (w, s) -> (2 <= length hist)%nat.
Proof.
  unfold top_two. rewrite <- (length_ranking hist).
  destruct (ranking hist) as [|x [|y r]]; simpl; try discriminate.
  intros _. lia.
Qed.

Lemma top_two_counts (hist : list N) :
  (2 <= length hist)%nat ->
  exists wc wi sc si,
    top_two hist = ret ((wc, wi), (sc, si))
    /\ (sc <= wc)%N
    /\ (forall k c, nth_error hist k = Some c -> (c <= wc)%N).
Proof.
  intros Hbins.
  destruct (top_two_spec hist Hbins)
    as (wc & wi & sc & si & rest & _ & Htop & Hw & Hs & Hne & Hws & HW & _).
  exists wc, wi, sc, si. split; [exact Htop|].
  unfold ranks_before in *. simpl in *. split; [lia|].
  intros k c Hk. destruct (Nat.eq_dec k wi) as [->|Hkw].
  - assert (c = wc) by congruence. lia.
  - specialize (HW k c Hk Hkw). lia.
Qed.

(** C5: for a histogram that counts at least one pixel and a gradient of
    two or more glyphs, the ratio lies in (0,1], and the index computed
    from it lies within the gradient, so that clamping it changes nothing
    and the glyph lookup succeeds.  The gradient is taken to be no longer
    than [2^53], so that its length converts to a float exactly. *)
Theorem glyph_index_in_range
  (hist : list N) (pal : list (list Z)) (mzx_chars : list Z)
  (Hbins : (2 <= length hist)%nat)
  (Htotal : (0 < total hist)%N)
  (Hgrad : (2 <= length mzx_chars)%nat)
  (Hfits : Z.of_nat (length mzx_chars) <= 2 ^ 53) :
  exists winner second ratio index glyph color,
    top_two hist = ret (winner, second)
    /\ winner_ratio winner second = ret ratio
    /\ (0 < dy_Q ratio)%Q /\ (dy_Q ratio <= 1)%Q
    /\ winner_char_index ratio mzx_chars = ret index
    /\ 0 <= index < Z.of_nat (length mzx_chars)
    /\ clamp 0 (Z.of_nat (length mzx_chars) - 1) index = index
    /\ py_index mzx_chars index = ret glyph
    /\ rank_histogram_to_col_and_char hist pal mzx_chars = ret (glyph, color).
Proof.
  destruct (top_two_counts hist Hbins)
    as (wc & wi & sc & si & Htop & Hle & Hmax).
  destruct (total_pos hist Htotal) as (k & c & Hk & Hc).
  pose proof (Hmax k c Hk) as Hcw.
  destruct (reducer_core hist pal mzx_chars wc wi sc si Htop Hle
              ltac:(lia) ltac:(lia) Hfits)
    as (M & E & index & glyph & Hratio & HE & Hlo & Hhi & _ & Hindex
        & _ & Hrange & _ & Hg & _ & Hrun).
  destruct (dy_Q_bounds M E ltac:(lia) Hlo Hhi) as (_ & Hq0 & Hq1 & _).
  exists (wc, wi), (sc, si), (Dy M E), index, glyph,
    (Z.of_nat wi mod 16 + (Z.of_nat si mod 16) * 16).
  split; [exact Htop|]. split; [exact Hratio|]. split; [exact Hq0|].
  split; [exact Hq1|]. split; [exact Hindex|]. split; [lia|].
  split; [unfold clamp; lia|]. split; [exact Hg | exact Hrun].
Qed.

Lemma glyph_index_in_range_witness :
  exists winner second ratio index glyph color,
    top_two hist_tied = ret (winner, second)
    /\ winner_ratio winner second = ret ratio
    /\ (0 < dy_Q ratio)%Q /\ (dy_Q ratio <= 1)%Q
    /\ winner_char_index ratio default_chars = ret index
    /\ 0 <= index < Z.of_nat (length default_chars)
    /\ clamp 0 (Z.of_nat (length default_chars) - 1) index = index
    /\ py_index default_chars index = ret glyph
    /\ rank_histogram_to_col_and_char hist_tied [] default_chars
       = ret (glyph, color).
Proof.
  apply (glyph_index_in_range hist_tied [] default_chars).
  - vm_compute; lia.
  - reflexivity.
  - vm_compute; lia.
  - vm_compute; discriminate.
Defined.

Lemma nth_error_last {A : Type} (l : list A) (a d : A) :
  nth_error l (length l - 1) = Some a -> last l d = a.
Proof.
  induction l as [|x l IH]; [discriminate|].
  destruct l as [|y l].
  - simpl. congruence.
  - intros H. change (last (x :: y :: l) d) with (last (y :: l) d).
    apply IH.
    replace (length (x :: y :: l) - 1)%nat
      with (S (length (y :: l) - 1)) in H by (simpl; lia).
    exact H.
Qed.

(** C6: when one bin holds every pixel of the cell, the ratio is exactly 1
    and the glyph is the last of the gradient. *)
Theorem single_bin_last_glyph
  (hist : list N) (pal : list (list Z)) (mzx_chars : list Z)
  (i : nat) (c : N)
  (Hbins : (2 <= length hist)%nat)
  (Hbin : nth_error hist i = Some c)
  (Hpos : (0 < c)%N)
  (Hothers : forall k c', nth_error hist k = Some c' -> k <> i -> c' = 0%N)
  (Hgrad : (2 <= length mzx_chars)%nat)
  (Hfits : Z.of_nat (length mzx_chars) <= 2 ^ 53) :
  exists second ratio glyph color,
    top_two hist = ret ((c, i), second)
    /\ fst second = 0%N
    /\ winner_ratio (c, i) second = ret ratio
    /\ (dy_Q ratio == 1)%Q
    /\ winner_char_index ratio mzx_chars
       = ret (Z.of_nat (length mzx_chars) - 1)
    /\ last mzx_chars 0 = glyph
    /\ rank_histogram_to_col_and_char hist pal mzx_chars = ret (glyph, color).
Proof.
  destruct (top_two_spec hist Hbins)
    as (wc & wi & sc & si & rest & _ & Htop & Hw & Hs & Hne & Hws & HW & _).
  unfold ranks_before in *. simpl in *.
  assert (Hwi : wi = i).
  { destruct (Nat.eq_dec i wi) as [->|Hiw]; [reflexivity|].
    pose proof (HW i c Hbin Hiw) as Hr.
    assert (wc = 0%N) by (apply (Hothers wi wc Hw); congruence).
    lia. }
  subst wi. assert (wc = c) by congruence. subst wc.
  assert (Hsc : sc = 0%N) by (apply (Hothers si sc Hs); congruence).
  destruct (reducer_core hist pal mzx_chars c i sc si Htop ltac:(lia)
              Hpos ltac:(lia) Hfits)
    as (M & E & index & glyph & Hratio & HE & Hlo & Hhi & Hone & Hindex
        & _ & Hrange & Hlast & Hg & Hnth & Hrun).
  destruct (dy_Q_bounds M E ltac:(lia) Hlo Hhi) as (_ & _ & _ & Hq1).
  specialize (Hone Hsc). specialize (Hlast Hsc). subst index.
  exists (sc, si), (Dy M E), glyph,
    (Z.of_nat i mod 16 + (Z.of_nat si mod 16) * 16).
  split; [exact Htop|]. split; [exact Hsc|]. split; [exact Hratio|].
  split; [exact (Hq1 Hone)|]. split; [exact Hindex|].
  split; [|exact Hrun].
  apply nth_error_last.
  replace (length mzx_chars - 1)%nat
    with (Z.to_nat (Z.of_nat (length mzx_chars) - 1)) by lia.
  exact Hnth.
Qed.

Lemma single_bin_last_glyph_witness :
  exists second ratio glyph color,
    top_two hist_uniform = ret ((112%N, 5%nat), second)
    /\ fst second = 0%N
    /\ winner_ratio (112%N, 5%nat) second = ret ratio
    /\ (dy_Q ratio == 1)%Q
    /\ winner_char_index ratio default_chars
       = ret (Z.of_nat (length default_chars) - 1)
    /\ last default_chars 0 = glyph
    /\ rank_histogram_to_col_and_char hist_uniform [] default_chars
       = ret (glyph, color).
Proof.
  apply (single_bin_last_glyph hist_uniform [] default_chars 5 112%N).
  - vm_compute; lia.
  - reflexivity.
  - reflexivity.
  - intros k c' Hk Hne.
    do 256 (destruct k as [|k];
            [first [congruence | injection Hk as <-; reflexivity]|]).
    destruct k; discriminate Hk.
  - vm_compute; lia.
  - vm_compute; discriminate.
Defined.

Lemma int_truediv_zero (a : Z) : int_truediv a 0 = raise ZeroDivisionError.
Proof. reflexivity. Qed.

(** With the default gradient every glyph the reducer returns is one of
    the last two. *)
Lemma default_gradient_glyphs
  (hist : list N) (pal : list (list Z)) (glyph color : Z) :
  rank_histogram_to_col_and_char hist pal default_chars = ret (glyph, color) ->
  glyph = 178 \/ glyph = 219.
Proof.
  intros Hrun.
  destruct (top_two hist) as [e|[w s]] eqn:Htop.
  { unfold rank_histogram_to_col_and_char in Hrun. rewrite Htop in Hrun.
    discriminate Hrun. }
  pose proof (top_two_length hist w s Htop) as Hbins.
  destruct (top_two_counts hist Hbins)
    as (wc & wi & sc & si & Htop' & Hle & _).
  rewrite Htop in Htop'. injection Htop' as -> ->.
  assert (Hpos : (0 < wc)%N).
  { destruct (N.eq_dec wc 0) as [Hz|Hnz]; [|lia].
    assert (sc = 0%N) by lia. subst wc sc.
    unfold rank_histogram_to_col_and_char in Hrun. rewrite Htop in Hrun.
    discriminate Hrun. }
  destruct (reducer_core hist pal default_chars wc wi sc si Htop Hle Hpos
              ltac:(simpl; lia) ltac:(vm_compute; discriminate))
    as (M & E & index & g & _ & _ & _ & _ & _ & _
        & Hlo & Hhi & _ & _ & Hnth & Hrun').
  rewrite Hrun in Hrun'. injection Hrun' as -> _.
  change (rne (Z.of_nat (length default_chars) - 1) 2) with 2 in Hlo.
  change (Z.of_nat (length default_chars) - 1) with 3 in Hhi.
  assert (Hcases : index = 2 \/ index = 3) by lia.
  destruct Hcases as [-> | ->]; simpl in Hnth; injection Hnth as <-;
    [left | right]; reflexivity.
Qed.

(** C10: the winner's count is at least the runner-up's, so the ratio
    lies in [1/2, 1] and the index is at least [round((len-1)/2)]; with the
    default gradient the reducer returns only glyph 178 or 219. *)
Theorem ratio_at_least_half
  (hist : list N) (pal : list (list Z)) (mzx_chars : list Z)
  (Hbins : (2 <= length hist)%nat)
  (Htotal : (0 < total hist)%N)
  (Hgrad : (2 <= length mzx_chars)%nat)
  (Hfits : Z.of_nat (length mzx_chars) <= 2 ^ 53) :
  (exists winner second ratio index half glyph color,
     top_two hist = ret (winner, second)
     /\ (fst second <= fst winner)%N
     /\ winner_ratio winner second = ret ratio
     /\ (1 # 2 <= dy_Q ratio)%Q /\ (dy_Q ratio <= 1)%Q
     /\ winner_char_index ratio mzx_chars = ret index
     /\ py_round_half (Z.of_nat (length mzx_chars) - 1) = ret half
     /\ half <= index
     /\ rank_histogram_to_col_and_char hist pal mzx_chars
        = ret (glyph, color))
  /\ (forall glyph color,
        rank_histogram_to_col_and_char hist pal default_chars
        = ret (glyph, color) ->
        (glyph = 178 \/ glyph = 219) /\ glyph <> 176 /\ glyph <> 177).
Proof.
  split.
  - destruct (top_two_counts hist Hbins)
      as (wc & wi & sc & si & Htop & Hle & Hmax).
    destruct (total_pos hist Htotal) as (k & c & Hk & Hc).
    pose proof (Hmax k c Hk) as Hcw.
    destruct (reducer_core hist pal mzx_chars wc wi sc si Htop Hle
                ltac:(lia) ltac:(lia) Hfits)
      as (M & E & index & glyph & Hratio & HE & Hlo & Hhi & _ & Hindex
          & Hhalf & _ & _ & _ & _ & Hrun).
    destruct (dy_Q_bounds M E ltac:(lia) Hlo Hhi) as (Hq12 & _ & Hq1 & _).
    exists (wc, wi), (sc, si), (Dy M E), index,
      (rne (Z.of_nat (length mzx_chars) - 1) 2), glyph,
      (Z.of_nat wi mod 16 + (Z.of_nat si mod 16) * 16).
    split; [exact Htop|]. split; [exact Hle|]. split; [exact Hratio|].
    split; [exact Hq12|]. split; [exact Hq1|]. split; [exact Hindex|].
    split; [apply py_round_half_rne; lia|].
    split; [exact Hhalf | exact Hrun].
  - intros glyph color Hrun.
    destruct (default_gradient_glyphs hist pal glyph color Hrun) as [-> | ->];
      (split; [auto | split; discriminate]).
Qed.

Lemma ratio_at_least_half_witness :
  (exists winner second ratio index half glyph color,
     top_two hist_tied = ret (winner, second)
     /\ (fst second <= fst winner)%N
     /\ winner_ratio winner second = ret ratio
     /\ (1 # 2 <= dy_Q ratio)%Q /\ (dy_Q ratio <= 1)%Q
     /\ winner_char_index ratio default_chars = ret index
     /\ py_round_half (Z.of_nat (length default_chars) - 1) = ret half
     /\ half <= index
     /\ rank_histogram_to_col_and_char hist_tied [] default_chars
        = ret (glyph, color))
  /\ (forall glyph color,
        rank_histogram_to_col_and_char hist_tied [] default_chars
        = ret (glyph, color) ->
        (glyph = 178 \/ glyph = 219) /\ glyph <> 176 /\ glyph <> 177).
Proof.
  apply (ratio_at_least_half hist_tied [] default_chars).
  - vm_compute; lia.
  - reflexivity.
  - vm_compute; lia.
  - vm_compute; discriminate.
Defined.

(** ** Cells without pixels *)

Lemma stub_resize_rejects (im : unit) (w h : Z) :
  w < 1 \/ h < 1 -> stub_resize im w h = raise ValueError.
Proof.
  intros H. unfold stub_resize.
  destruct (Z.ltb_spec w 1); destruct (Z.ltb_spec h 1); cbn [orb];
    try reflexivity. lia.
Qed.

(** C2, as the program behaves: the script has no check of the cell size
    and no [DegenerateCellError].  A cell of zero width or height makes the
    target size of the resize zero in that direction; Pillow's resize
    raises [ValueError] for a size below 1, and the layer builder ends with
    that error, whatever the quantiser and the gradient: no cell is reduced,
    so the division is never reached and no [ZeroDivisionError] occurs. *)
Theorem zero_area_cell_rejected
  (image : Type)
  (image_open : filesystem -> string -> result image)
  (resize : image -> Z -> Z -> result image)
  (quantize_image : image -> list Z -> result pimage)
  (Hpillow : forall im w h, w < 1 \/ h < 1 -> resize im w h = raise ValueError)
  (fs : filesystem) (a : args) (im : image) (pil_pal : list Z)
  (mzx_pal : list (list Z)) (mzx_chars : list Z)
  (Hzero : char_width a = 0 \/ char_height a = 0) :
  mad_science image resize quantize_image a im pil_pal mzx_pal mzx_chars
  = raise ValueError
  /\ mad_science image resize quantize_image a im pil_pal mzx_pal mzx_chars
     <> raise ZeroDivisionError
  /\ (get_palette fs a = ret mzx_pal -> get_chars a = ret mzx_chars ->
      image_open fs (input a) = ret im ->
      main image image_open resize quantize_image fs a
      = (fs, raise ValueError)).
Proof.
  assert (Hsize : width a * char_width a < 1 \/ height a * char_height a < 1).
  { destruct Hzero as [-> | ->]; [left | right]; lia. }
  assert (Hrun : forall pal8,
            mad_science image resize quantize_image a im pal8 mzx_pal mzx_chars
            = raise ValueError).
  { intros pal8. unfold mad_science.
    rewrite (Hpillow im _ _ Hsize). reflexivity. }
  split; [apply Hrun|]. split.
  - rewrite Hrun. discriminate.
  - intros Hpal Hchars Hopen. unfold main.
    rewrite Hpal. cbn [bind ret]. rewrite Hchars. cbn [bind ret].
    rewrite Hopen. cbn [bind ret]. rewrite Hrun. reflexivity.
Qed.

Lemma zero_area_cell_rejected_witness :
  mad_science unit stub_resize (stub_quantize []) args_zero_cell tt
    (make_8bit_palette DEFAULT_PALETTE) DEFAULT_PALETTE default_chars
  = raise ValueError
  /\ mad_science unit stub_resize (stub_quantize []) args_zero_cell tt
       (make_8bit_palette DEFAULT_PALETTE) DEFAULT_PALETTE default_chars
     <> raise ZeroDivisionError
  /\ (get_palette fs_empty args_zero_cell = ret DEFAULT_PALETTE ->
      get_chars args_zero_cell = ret default_chars ->
      stub_open fs_empty (input args_zero_cell) = ret tt ->
      main unit stub_open stub_resize (stub_quantize []) fs_empty
        args_zero_cell
      = (fs_empty, raise ValueError)).
Proof.
  apply (zero_area_cell_rejected unit stub_open stub_resize (stub_quantize [])
           stub_resize_rejects fs_empty args_zero_cell tt
           (make_8bit_palette DEFAULT_PALETTE) DEFAULT_PALETTE default_chars).
  left. reflexivity.
Defined.

(** C2 as the specification words it fails: with [--char-width 0] the run is
    rejected before any cell is reduced, but with the [ValueError] of the
    resize, not with [DegenerateCellError]. *)
Lemma zero_area_cell_counterexample :
  mad_science unit stub_resize (stub_quantize []) args_zero_cell tt
    (make_8bit_palette DEFAULT_PALETTE) DEFAULT_PALETTE default_chars
  = raise ValueError
  /\ main unit stub_open stub_resize (stub_quantize []) fs_empty args_zero_cell
     = (fs_empty, raise ValueError)
  /\ mad_science unit stub_resize (stub_quantize []) args_zero_cell tt
       (make_8bit_palette DEFAULT_PALETTE) DEFAULT_PALETTE default_chars
     <> raise DegenerateCellError.
Proof.
  assert (H : mad_science unit stub_resize (stub_quantize []) args_zero_cell tt
                (make_8bit_palette DEFAULT_PALETTE) DEFAULT_PALETTE
                default_chars
              = raise ValueError) by (vm_compute; reflexivity).
  split; [exact H|]. split; [vm_compute; reflexivity|].
  rewrite H. discriminate.
Qed.

(** * Further properties of the script *)

(** ** The palette, from file to table *)

(** X1: on a 6-bit value the expansion replicates bits: the value moves up
    two places and its top two bits fill the two places freed. *)
Theorem expand_bit_replication (v : Z) (Hv : 0 <= v <= 63) :
  expand v = Z.lor (Z.shiftl v 2) (Z.shiftr v 4).
Proof.
  replace v with (Z.of_nat (Z.to_nat v)) by lia.
  assert (Hn : (Z.to_nat v < 64)%nat) by lia.
  generalize dependent (Z.to_nat v). intros n Hn.
  do 64 (destruct n as [|n]; [reflexivity|]). lia.
Qed.

Lemma expand_bit_replication_witness :
  expand 42 = Z.lor (Z.shiftl 42 2) (Z.shiftr 42 4).
Proof. apply (expand_bit_replication 42). lia. Defined.

Lemma expand_lt (u v : Z) : u < v -> expand u < expand v.
Proof.
  intros H. unfold expand.
  assert (u / 16 <= v / 16) by (apply Z.div_le_mono; lia). lia.
Qed.

(** X2: the expansion is strictly increasing, hence one-to-one, and its
    result fits a byte exactly for the values up to 63: a palette byte of
    64 or more expands beyond 255. *)
Theorem expand_monotone_fits (u v : Z) :
  (u < v <-> expand u < expand v)
  /\ (expand u = expand v -> u = v)
  /\ (expand v <= 255 <-> v <= 63).
Proof.
  assert (Hmono : forall x y, x <= y -> expand x <= expand y).
  { intros x y Hxy. destruct (Z.eq_dec x y) as [->|Hne]; [lia|].
    pose proof (expand_lt x y ltac:(lia)). lia. }
  split; [|split].
  - split; [apply expand_lt|]. intros H.
    destruct (Z.lt_ge_cases u v) as [Hlt|Hge]; [exact Hlt|].
    pose proof (Hmono v u Hge). lia.
  - intros H. destruct (Z.lt_trichotomy u v) as [Hlt|[Heq|Hgt]];
      [apply expand_lt in Hlt; lia | exact Heq | apply expand_lt in Hgt; lia].
  - split; intros H.
    + destruct (Z.le_gt_cases v 63) as [Hle|Hgt]; [exact Hle|].
      pose proof (Hmono 64 v ltac:(lia)) as H64.
      change (expand 64) with 260 in H64. lia.
    + pose proof (Hmono v 63 H) as H63.
      change (expand 63) with 255 in H63. exact H63.
Qed.

Lemma byte_to_Z_range (b : byte) : 0 <= byte_to_Z b < 256.
Proof.
  unfold byte_to_Z. pose proof (Byte.to_N_bounded b) as H. lia.
Qed.

Lemma get_palette_loop_some (k : list Z) (pal : list (list Z)) :
  (length k <= 48)%nat ->
  get_palette_loop k 16 0 [] = ret pal -> length k = 48%nat.
Proof.
  intros Hle Hrun.
  destruct (Nat.eq_dec (length k) 48) as [H|H]; [exact H|].
  rewrite get_palette_loop_short in Hrun by lia. discriminate Hrun.
Qed.

(** X3: whatever the arguments and the files, a palette the loader returns
    has 16 entries of 3 channels each, every channel a byte value. *)
Theorem get_palette_wellformed
  (fs : filesystem) (a : args) (pal : list (list Z))
  (Hload : get_palette fs a = ret pal) :
  length pal = 16%nat
  /\ Forall (fun c => length c = 3%nat) pal
  /\ Forall (Forall (fun v => 0 <= v <= 255)) pal.
Proof.
  unfold get_palette in Hload.
  destruct (palette a) as [path|].
  - destruct (fs path) as [content|]; [|discriminate Hload].
    set (k := map byte_to_Z (firstn 48 content)) in *.
    assert (Hk48 : (length k <= 48)%nat).
    { unfold k. rewrite length_map, length_firstn. lia. }
    pose proof (get_palette_loop_some k pal Hk48 Hload) as Hlen.
    destruct (get_palette_loop_full k Hlen) as (pal' & Hrun & H16 & H3 & Hcat).
    rewrite Hrun in Hload. injection Hload as <-.
    split; [exact H16|]. split; [exact H3|].
    apply Forall_forall. intros c Hc. apply Forall_forall. intros v Hv.
    assert (Hin : In v (concat pal')) by (apply in_concat; exists c; auto).
    rewrite Hcat in Hin. unfold k in Hin. apply in_map_iff in Hin.
    destruct Hin as (b & <- & _). pose proof (byte_to_Z_range b). lia.
  - injection Hload as <-.
    split; [reflexivity|]. split; repeat constructor; lia.
Qed.

Lemma get_palette_wellformed_witness :
  length DEFAULT_PALETTE = 16%nat
  /\ Forall (fun c => length c = 3%nat) DEFAULT_PALETTE
  /\ Forall (Forall (fun v => 0 <= v <= 255)) DEFAULT_PALETTE.
Proof.
  apply (get_palette_wellformed fs_empty (default_args "in.png" "out.mzm")).
  reflexivity.
Defined.

(** X4: only the first 48 bytes of a palette file count: two files that
    agree on them load the same palette, so longer files are accepted and
    their tail ignored. *)
Theorem get_palette_first_48
  (fs fs' : filesystem) (a : args) (path : string) (content content' : list byte)
  (Hpath : palette a = Some path)
  (Hfile : fs path = Some content)
  (Hfile' : fs' path = Some content')
  (Hsame : firstn 48 content = firstn 48 content') :
  get_palette fs a = get_palette fs' a
  /\ (forall tail, (48 <= length content)%nat ->
        get_palette (fun p => if String.eqb p path
                              then Some (content ++ tail) else fs p) a
        = get_palette fs a).
Proof.
  unfold get_palette. rewrite Hpath, Hfile, Hfile'.
  split; [rewrite Hsame; reflexivity|]. intros tail Hlen.
  rewrite String.eqb_refl. rewrite firstn_app.
  replace (48 - length content)%nat with 0%nat by lia.
  rewrite firstn_O, app_nil_r. reflexivity.
Qed.

(** X5: the loader and the expansion composed: for a palette file of 48
    bytes or more, value [j] of the 8-bit palette is the expansion of byte
    [j] of the file, and the table handed to the quantiser holds 256
    colours, colour [i] repeating colour [i mod 16]. *)
Theorem loaded_palette_table
  (fs : filesystem) (a : args) (path : string) (content : list byte)
  (Hpath : palette a = Some path)
  (Hfile : fs path = Some content)
  (Hlen : (48 <= length content)%nat) :
  exists pal,
    get_palette fs a = ret pal
    /\ make_8bit_palette pal
       = map (fun b => expand (byte_to_Z b)) (firstn 48 content)
    /\ length (diffusion_table (make_8bit_palette pal)) = 768%nat
    /\ forall i, (i < 256)%nat ->
         palette_color (diffusion_table (make_8bit_palette pal)) i
         = palette_color (make_8bit_palette pal) (i mod 16).
Proof.
  assert (Hk : length (map byte_to_Z (firstn 48 content)) = 48%nat).
  { rewrite length_map, length_firstn. lia. }
  destruct (get_palette_loop_full _ Hk) as (pal & Hrun & _ & _ & Hcat).
  exists pal.
  assert (H8 : make_8bit_palette pal
               = map (fun b => expand (byte_to_Z b)) (firstn 48 content)).
  { unfold make_8bit_palette. rewrite Hcat, map_map. reflexivity. }
  assert (H48 : length (make_8bit_palette pal) = 48%nat).
  { rewrite H8, length_map, length_firstn. lia. }
  split; [unfold get_palette; rewrite Hpath, Hfile; exact Hrun|].
  split; [exact H8|]. split.
  - unfold diffusion_table. rewrite length_list_repeat, H48. reflexivity.
  - intros i Hi. unfold diffusion_table.
    apply palette_color_repeat; assumption.
Qed.

Lemma get_palette_first_48_witness :
  get_palette fs_long_palette args_long_palette
  = get_palette fs_long_palette args_long_palette
  /\ (forall tail, (48 <= length (repeat x3f 50))%nat ->
        get_palette (fun p => if String.eqb p "long.pal"
                              then Some (repeat x3f 50 ++ tail)
                              else fs_long_palette p) args_long_palette
        = get_palette fs_long_palette args_long_palette).
Proof.
  apply (get_palette_first_48 fs_long_palette fs_long_palette
           args_long_palette "long.pal"%string (repeat x3f 50)
           (repeat x3f 50)); reflexivity.
Defined.

Lemma loaded_palette_table_witness :
  exists pal,
    get_palette fs_long_palette args_long_palette = ret pal
    /\ make_8bit_palette pal
       = map (fun b => expand (byte_to_Z b)) (firstn 48 (repeat x3f 50))
    /\ length (diffusion_table (make_8bit_palette pal)) = 768%nat
    /\ forall i, (i < 256)%nat ->
         palette_color (diffusion_table (make_8bit_palette pal)) i
         = palette_color (make_8bit_palette pal) (i mod 16).
Proof.
  apply (loaded_palette_table fs_long_palette args_long_palette
           "long.pal"%string (repeat x3f 50)).
  - reflexivity.
  - reflexivity.
  - vm_compute; lia.
Defined.

(** ** The gradient *)

Lemma length_py_split (sep : ascii) (s : string) :
  length (py_split sep s) = S (count_sep sep s).
Proof.
  induction s as [|c s IH]; [reflexivity|]. cbn [py_split count_sep].
  destruct (Ascii.eqb c sep).
  - cbn [length]. rewrite IH. reflexivity.
  - destruct (py_split sep s) as [|t ts]; simpl in *; lia.
Qed.

Lemma Forall2_length_eq {A B : Type} (R : A -> B -> Prop)
  (l : list A) (l' : list B) :
  Forall2 R l l' -> length l = length l'.
Proof. induction 1; simpl; congruence. Qed.

(** X6: a gradient that parses has one entry per comma of the argument,
    plus one; no entry is dropped or merged. *)
Theorem get_chars_length (a : args) (l : list Z)
  (Hparse : get_chars a = ret l) :
  length l = S (count_sep "," (chars a)).
Proof.
  unfold get_chars in Hparse. apply mapM_inr in Hparse.
  apply Forall2_length_eq in Hparse.
  rewrite <- Hparse. apply length_py_split.
Qed.

Lemma get_chars_length_witness :
  length [176; 177; 178; 219] = S (count_sep "," "176,177,178,219").
Proof.
  apply (get_chars_length (default_args "in.png" "out.mzm")). reflexivity.
Defined.

(** ** The writer: failures and frame *)

Lemma pack_uint_range (n : nat) (v : Z) (bs : list byte) :
  pack_uint n v = ret bs ->
  0 <= v < 2 ^ (8 * Z.of_nat n) /\ bs = le_bytes n v.
Proof.
  unfold pack_uint.
  destruct (Z.leb_spec 0 v); destruct (Z.ltb_spec v (2 ^ (8 * Z.of_nat n)));
    cbn [andb]; intros Hr; try discriminate Hr.
  injection Hr as <-. split; [lia | reflexivity].
Qed.

Lemma pack_uint_bad (n : nat) (v : Z) :
  ~ (0 <= v < 2 ^ (8 * Z.of_nat n)) -> pack_uint n v = raise StructError.
Proof.
  intros H. unfold pack_uint.
  destruct (Z.leb_spec 0 v); destruct (Z.ltb_spec v (2 ^ (8 * Z.of_nat n)));
    cbn [andb]; try reflexivity. lia.
Qed.

Lemma pack_header_cases (a : args) :
  (pack_header a = raise StructError
   /\ ~ (0 <= width a < 65536 /\ 0 <= height a < 65536))
  \/ (exists h, pack_header a = ret h
                /\ map byte_to_Z h = header_values (width a) (height a)
                /\ 0 <= width a < 65536 /\ 0 <= height a < 65536).
Proof.
  unfold pack_header.
  destruct (Z.le_gt_cases 0 (width a)) as [Hw0|Hw0];
    [destruct (Z.lt_ge_cases (width a) 65536) as [Hw1|Hw1]|];
    try (left; rewrite (pack_uint_bad 2 (width a))
           by (change (2 ^ (8 * Z.of_nat 2)) with 65536; lia);
         split; [reflexivity | lia]).
  destruct (pack_uint16 (width a) ltac:(lia)) as (wb & -> & Hwv).
  cbn [bind ret].
  destruct (Z.le_gt_cases 0 (height a)) as [Hh0|Hh0];
    [destruct (Z.lt_ge_cases (height a) 65536) as [Hh1|Hh1]|];
    try (left; rewrite (pack_uint_bad 2 (height a))
           by (change (2 ^ (8 * Z.of_nat 2)) with 65536; lia);
         split; [reflexivity | lia]).
  destruct (pack_uint16 (height a) ltac:(lia)) as (hb & -> & Hhv).
  right. eexists. split; [reflexivity|].
  split; [|lia].
  rewrite !map_app, Hwv, Hhv. reflexivity.
Qed.

Lemma bytearray_cases (l : list Z) :
  (bytearray l = raise ValueError /\ Exists (fun z => ~ 0 <= z < 256) l)
  \/ (exists bs, bytearray l = ret bs /\ map byte_to_Z bs = l
                 /\ Forall (fun z => 0 <= z < 256) l).
Proof.
  induction l as [|z l IH].
  - right. exists []. repeat split. constructor.
  - unfold bytearray in *. cbn [mapM].
    destruct (Z.leb_spec 0 z) as [H0|H0];
      [destruct (Z.ltb_spec z 256) as [H1|H1]|]; cbn [andb bind raise];
      try (left; split; [reflexivity | left; lia]).
    destruct IH as [[-> Hex]|(bs & -> & Hmap & Hall)].
    + left. split; [reflexivity | right; exact Hex].
    + right. exists (byte_of_Z z :: bs). split; [reflexivity|]. split.
      * cbn [map]. rewrite byte_to_Z_of_Z_small, Hmap by lia. reflexivity.
      * constructor; [lia | exact Hall].
Qed.

Lemma flatten_layer_Exists (layer : list (Z * Z)) :
  Exists (fun z => ~ 0 <= z < 256) (flatten_layer layer)
  <-> Exists (fun p => ~ byte_pair p) layer.
Proof.
  unfold flatten_layer, byte_pair.
  induction layer as [|p layer IH]; simpl.
  - split; intros H; inversion H.
  - rewrite !Exists_cons, IH. split.
    + intros [H|[H|H]]; [left; lia | left; lia | right; exact H].
    + intros [H|H]; [|right; right; exact H].
      destruct (Z.le_gt_cases 0 (fst p)); [|left; lia].
      destruct (Z.lt_ge_cases (fst p) 256); [|left; lia].
      right; left; lia.
Qed.

(** How a call of the writer can end. *)
Lemma write_mzm_cases (fs : filesystem) (a : args) (layer : list (Z * Z)) :
  (write_mzm fs a layer = (fs, raise StructError)
   /\ ~ (0 <= width a < 65536 /\ 0 <= height a < 65536))
  \/ (write_mzm fs a layer = (fs, raise ValueError)
      /\ (0 <= width a < 65536 /\ 0 <= height a < 65536)
      /\ Exists (fun p => ~ byte_pair p) layer)
  \/ (exists content,
        write_mzm fs a layer = (fs_write fs (output a) content, ret tt)
        /\ map byte_to_Z content
           = header_values (width a) (height a) ++ flatten_layer layer
        /\ (0 <= width a < 65536 /\ 0 <= height a < 65536)
        /\ Forall byte_pair layer).
Proof.
  unfold write_mzm.
  destruct (pack_header_cases a) as [[-> Hbad]|(h & -> & Hh & Hdims)].
  { left. split; [reflexivity | exact Hbad]. }
  right. cbn [bind ret].
  destruct (bytearray_cases (flatten_layer layer))
    as [[-> Hex]|(bs & -> & Hmap & Hall)].
  - left. split; [reflexivity|]. split; [exact Hdims|].
    apply flatten_layer_Exists. exact Hex.
  - right. exists (h ++ bs). split; [reflexivity|].
    split; [rewrite map_app, Hh, Hmap; reflexivity|].
    split; [exact Hdims|].
    apply Forall_forall. intros p Hp.
    destruct (Z.le_gt_cases 0 (fst p)); destruct (Z.lt_ge_cases (fst p) 256);
      destruct (Z.le_gt_cases 0 (snd p)); destruct (Z.lt_ge_cases (snd p) 256);
      try (split; lia); exfalso;
      rewrite Forall_forall in Hall;
      assert (Hp1 : In (fst p) (flatten_layer layer))
        by (apply in_flat_map; exists p; split; [exact Hp | left; reflexivity]);
      assert (Hp2 : In (snd p) (flatten_layer layer))
        by (apply in_flat_map; exists p;
            split; [exact Hp | right; left; reflexivity]);
      pose proof (Hall _ Hp1); pose proof (Hall _ Hp2); lia.
Qed.

(** X7: what the writer checks before it opens the file.  A width or a
    height that is not a 16-bit value ends the call with [struct.error];
    with both in range, a glyph or a colour that is not a byte value ends
    it with [ValueError]; either way the file system is untouched, the file
    not having been opened yet.  A call that succeeds had 16-bit
    dimensions and byte values throughout. *)
Theorem write_mzm_rejects (fs : filesystem) (a : args) (layer : list (Z * Z)) :
  (~ (0 <= width a < 65536 /\ 0 <= height a < 65536) ->
     write_mzm fs a layer = (fs, raise StructError))
  /\ ((0 <= width a < 65536 /\ 0 <= height a < 65536) ->
      Exists (fun p => ~ byte_pair p) layer ->
      write_mzm fs a layer = (fs, raise ValueError))
  /\ (snd (write_mzm fs a layer) = ret tt ->
      (0 <= width a < 65536 /\ 0 <= height a < 65536)
      /\ Forall byte_pair layer).
Proof.
  assert (Hnot : forall l : list (Z * Z),
            Exists (fun p => ~ byte_pair p) l -> Forall byte_pair l -> False).
  { intros l Hex Hall. apply Exists_exists in Hex.
    destruct Hex as (p & Hp & Hnp). rewrite Forall_forall in Hall.
    apply Hnp, Hall, Hp. }
  destruct (write_mzm_cases fs a layer)
    as [[-> Hbad]|[(-> & Hdims & Hex)|(content & -> & _ & Hdims & Hall)]];
    cbn [snd]; (split; [|split]).
  - intros _. reflexivity.
  - intros Hd _. contradiction.
  - intros H. discriminate H.
  - intros Hd. contradiction.
  - intros _ _. reflexivity.
  - intros H. discriminate H.
  - intros Hd. contradiction.
  - intros _ Hex. exfalso. apply (Hnot layer Hex Hall).
  - intros _. split; assumption.
Qed.

Lemma write_mzm_rejects_witness :
  (~ (0 <= width args_small < 65536 /\ 0 <= height args_small < 65536) ->
     write_mzm fs_empty args_small [(300, 7)] = (fs_empty, raise StructError))
  /\ ((0 <= width args_small < 65536 /\ 0 <= height args_small < 65536) ->
      Exists (fun p => ~ byte_pair p) [(300, 7)] ->
      write_mzm fs_empty args_small [(300, 7)] = (fs_empty, raise ValueError))
  /\ (snd (write_mzm fs_empty args_small [(300, 7)]) = ret tt ->
      (0 <= width args_small < 65536 /\ 0 <= height args_small < 65536)
      /\ Forall byte_pair [(300, 7)]).
Proof. apply (write_mzm_rejects fs_empty args_small [(300, 7)]). Defined.



Lemma flatten_layer_inj (l l' : list (Z * Z)) :
  flatten_layer l = flatten_layer l' -> l = l'.
Proof.
  unfold flatten_layer. revert l'.
  induction l as [|[g c] l IH]; intros [|[g' c'] l']; simpl; intros H;
    try discriminate H; [reflexivity|].
  injection H as -> -> H. f_equal. apply IH. exact H.
Qed.

(** X9: nothing is lost in writing: two successful writes that store the
    same bytes had the same width, the same height and the same layer. *)
Theorem write_mzm_injective
  (fs fs' : filesystem) (a a' : args) (layer layer' : list (Z * Z))
  (Hok : snd (write_mzm fs a layer) = ret tt)
  (Hok' : snd (write_mzm fs' a' layer') = ret tt)
  (Hsame : fst (write_mzm fs a layer) (output a)
           = fst (write_mzm fs' a' layer') (output a')) :
  width a = width a' /\ height a = height a' /\ layer = layer'.
Proof.
  destruct (write_mzm_cases fs a layer)
    as [[E _]|[(E & _)|(content & E & Hmap & Hdims & _)]];
    rewrite E in *; try discriminate Hok.
  destruct (write_mzm_cases fs' a' layer')
    as [[E' _]|[(E' & _)|(content' & E' & Hmap' & Hdims' & _)]];
    rewrite E' in *; try discriminate Hok'.
  cbn [fst] in Hsame. unfold fs_write in Hsame.
  rewrite !String.eqb_refl in Hsame. injection Hsame as <-.
  rewrite Hmap in Hmap'. unfold header_values in Hmap'.
  cbn [app] in Hmap'.
  injection Hmap' as Hw0 Hw1 Hh0 Hh1 Hflat.
  split; [|split].
  - rewrite (Z.div_mod (width a) 256), (Z.div_mod (width a') 256) by lia.
    congruence.
  - rewrite (Z.div_mod (height a) 256), (Z.div_mod (height a') 256) by lia.
    congruence.
  - apply flatten_layer_inj. exact Hflat.
Qed.

Lemma write_mzm_injective_witness :
  width (default_args "in.png" "out.mzm") = width (default_args "i" "o")
  /\ height (default_args "in.png" "out.mzm") = height (default_args "i" "o")
  /\ [(219, 7)] = [(219, 7)].
Proof.
  apply (write_mzm_injective fs_empty fs_empty
           (default_args "in.png" "out.mzm") (default_args "i" "o")
           [(219, 7)] [(219, 7)]); reflexivity.
Defined.

(** ** The reducer: failures and the shape of its result *)

Lemma total_zero (hist : list N) (k : nat) (c : N) :
  total hist = 0%N -> nth_error hist k = Some c -> c = 0%N.
Proof.
  revert k. induction hist as [|c0 hist IH]; intros k Ht Hk.
  - destruct k; discriminate Hk.
  - simpl in Ht. destruct k as [|k]; simpl in Hk.
    + injection Hk as <-. lia.
    + apply (IH k); [lia | exact Hk].
Qed.

Lemma top_two_short (hist : list N) :
  (length hist < 2)%nat -> top_two hist = raise IndexError.
Proof.
  intros Hlen. unfold top_two. pose proof (length_ranking hist) as HL.
  destruct (ranking hist) as [|x [|y r]]; simpl in HL; try lia; reflexivity.
Qed.

(** X10: the reducer fails on a histogram of fewer than two bins with
    [IndexError], and on one of two or more bins that counts no pixel with
    [ZeroDivisionError], whatever the gradient. *)
Theorem rank_histogram_failures
  (hist : list N) (mzx_pal : list (list Z)) (mzx_chars : list Z) :
  ((length hist < 2)%nat ->
     rank_histogram_to_col_and_char hist mzx_pal mzx_chars = raise IndexError)
  /\ ((2 <= length hist)%nat -> total hist = 0%N ->
        rank_histogram_to_col_and_char hist mzx_pal mzx_chars
        = raise ZeroDivisionError).
Proof.
  split.
  - intros Hlen. unfold rank_histogram_to_col_and_char.
    rewrite top_two_short by exact Hlen. reflexivity.
  - intros Hlen Ht.
    destruct (top_two_spec hist Hlen)
      as (wc & wi & sc & si & rest & _ & Htop & Hw & Hs & _).
    rewrite (total_zero hist wi wc Ht Hw) in Htop.
    rewrite (total_zero hist si sc Ht Hs) in Htop.
    unfold rank_histogram_to_col_and_char. rewrite Htop. reflexivity.
Qed.

Lemma rank_histogram_failures_witness :
  ((length [5%N] < 2)%nat ->
     rank_histogram_to_col_and_char [5%N] [] default_chars = raise IndexError)
  /\ ((2 <= length [5%N])%nat -> total [5%N] = 0%N ->
        rank_histogram_to_col_and_char [5%N] [] default_chars
        = raise ZeroDivisionError).
Proof. apply (rank_histogram_failures [5%N] [] default_chars). Defined.

Lemma py_index_In {A : Type} (l : list A) (i : Z) (a : A) :
  py_index l i = ret a -> In a l.
Proof.
  unfold py_index.
  destruct ((_ <? 0) || (_ <=? _)); [discriminate|].
  destruct (nth_error l _) as [b|] eqn:E; [|discriminate].
  intros H. injection H as <-. apply (nth_error_In _ _ E).
Qed.

(** X11: whenever the reducer returns, the glyph is an entry of the
    gradient and the colour is a byte whose low half is the winner's bin
    index modulo 16 and whose high half is the runner-up's, two different
    bins of the histogram. *)
Theorem rank_histogram_result
  (hist : list N) (mzx_pal : list (list Z)) (mzx_chars : list Z)
  (glyph color : Z)
  (Hrun : rank_histogram_to_col_and_char hist mzx_pal mzx_chars
          = ret (glyph, color)) :
  In glyph mzx_chars
  /\ 0 <= color <= 255
  /\ exists wc wi sc si,
       top_two hist = ret ((wc, wi), (sc, si))
       /\ wi <> si
       /\ (wi < length hist)%nat /\ (si < length hist)%nat
       /\ color mod 16 = Z.of_nat wi mod 16
       /\ color / 16 = Z.of_nat si mod 16.
Proof.
  destruct (top_two hist) as [e|[[wc wi] [sc si]]] eqn:Htop.
  { unfold rank_histogram_to_col_and_char in Hrun. rewrite Htop in Hrun.
    discriminate Hrun. }
  pose proof (rank_color hist mzx_pal mzx_chars _ _ glyph color Htop Hrun)
    as Hcolor. cbn [snd] in Hcolor.
  pose proof (top_two_length hist _ _ Htop) as Hbins.
  destruct (top_two_spec hist Hbins)
    as (wc' & wi' & sc' & si' & rest & _ & Htop' & Hw & Hs & Hne & _).
  rewrite Htop in Htop'. injection Htop' as <- <- <- <-.
  assert (Hglyph : In glyph mzx_chars).
  { unfold rank_histogram_to_col_and_char in Hrun. rewrite Htop in Hrun.
    cbn [bind ret] in Hrun.
    destruct (winner_ratio (wc, wi) (sc, si)) as [e|r]; [discriminate|].
    cbn [bind] in Hrun.
    destruct (winner_char_index r mzx_chars) as [e|i]; [discriminate|].
    cbn [bind] in Hrun.
    destruct (py_index mzx_chars i) as [e|g] eqn:Hg; [discriminate|].
    cbn [bind ret] in Hrun. injection Hrun as <- _.
    apply (py_index_In _ _ _ Hg). }
  pose proof (Z.mod_pos_bound (Z.of_nat wi) 16 ltac:(lia)) as Hm1.
  pose proof (Z.mod_pos_bound (Z.of_nat si) 16 ltac:(lia)) as Hm2.
  split; [exact Hglyph|]. split; [lia|].
  exists wc, wi, sc, si. split; [reflexivity|]. split; [exact Hne|].
  split; [apply nth_error_Some; congruence|].
  split; [apply nth_error_Some; congruence|].
  rewrite Hcolor. split.
  - rewrite Z.mod_add by lia. apply Z.mod_small. lia.
  - rewrite Z.div_add by lia.
    rewrite (Z.div_small (Z.of_nat wi mod 16)) by lia. lia.
Qed.

Lemma rank_histogram_result_witness :
  In 178 default_chars
  /\ 0 <= 49 <= 255
  /\ exists wc wi sc si,
       top_two hist_tied = ret ((wc, wi), (sc, si))
       /\ wi <> si
       /\ (wi < length hist_tied)%nat /\ (si < length hist_tied)%nat
       /\ 49 mod 16 = Z.of_nat wi mod 16
       /\ 49 / 16 = Z.of_nat si mod 16.
Proof.
  apply (rank_histogram_result hist_tied [] default_chars 178 49).
  vm_compute. reflexivity.
Defined.

(** X12: a gradient of a single glyph is usable: every cell with pixels
    gets that glyph. *)
Theorem single_glyph_gradient
  (hist : list N) (mzx_pal : list (list Z)) (g : Z)
  (Hbins : (2 <= length hist)%nat)
  (Htotal : (0 < total hist)%N) :
  exists color,
    rank_histogram_to_col_and_char hist mzx_pal [g] = ret (g, color).
Proof.
  destruct (top_two_counts hist Hbins)
    as (wc & wi & sc & si & Htop & Hle & Hmax).
  destruct (total_pos hist Htotal) as (k & c & Hk & Hc).
  pose proof (Hmax k c Hk) as Hcw.
  destruct (reducer_core hist mzx_pal [g] wc wi sc si Htop Hle
              ltac:(lia) ltac:(simpl; lia) ltac:(vm_compute; discriminate))
    as (M & E & index & glyph & _ & _ & _ & _ & _ & _
        & _ & Hrange & _ & _ & Hnth & Hrun).
  cbn [length] in Hrange.
  assert (index = 0) as -> by lia.
  simpl in Hnth. injection Hnth as <-.
  eexists. exact Hrun.
Qed.

Lemma single_glyph_gradient_witness :
  exists color,
    rank_histogram_to_col_and_char hist_tied [] [1] = ret (1, color).
Proof.
  apply (single_glyph_gradient hist_tied [] 1).
  - vm_compute; lia.
  - reflexivity.
Defined.

(** ** A tied cell *)

Lemma truediv_half (a : Z) :
  0 < a ->
  exists M E,
    int_truediv a (a + a) = ret (Dy M E) /\ E <= - 52 /\ 2 * M = 2 ^ (- E).
Proof.
  intros Ha. unfold int_truediv.
  destruct (Z.eqb_spec (a + a) 0) as [?|_]; [lia|].
  rewrite (Z.abs_eq (a + a)), (Z.sgn_pos (a + a)), Z.mul_1_r by lia.
  assert (Hl : ilog2 a (a + a) <= 0) by (apply ilog2_upper; lia).
  rewrite round_b64_pos by lia.
  set (E := Z.max (ilog2 a (a + a) - 52) (- 1074)).
  assert (HE : E <= - 52) by (unfold E; lia).
  pose proof (pow2_pos (- E - 1) ltac:(lia)) as Ht.
  assert (Hpow : 2 ^ (- E) = 2 * 2 ^ (- E - 1)).
  { rewrite <- pow2_succ by lia. f_equal. lia. }
  assert (HM : rne (a * 2 ^ (- E)) (a + a) = 2 ^ (- E - 1)).
  { replace (a * 2 ^ (- E)) with (2 ^ (- E - 1) * (a + a)) by lia.
    apply rne_exact. lia. }
  rewrite HM.
  assert (Hov : overflows (Dy (2 ^ (- E - 1)) E) = false).
  { apply overflows_small; [lia | lia |].
    pose proof (pow2_pos 53 ltac:(lia)). nia. }
  rewrite Hov. exists (2 ^ (- E - 1)), E. repeat split; lia.
Qed.

Lemma float_mul_half (M1 E1 M2 E2 k : Z) :
  E1 <= 0 -> 2 * M1 = 2 ^ (- E1) ->
  E2 <= 0 -> M2 = k * 2 ^ (- E2) -> 0 <= k < 2 ^ 53 ->
  exists M E,
    float_mul (Dy M1 E1) (Dy M2 E2) = Finite (Dy M E)
    /\ E <= 0 /\ 2 * M = k * 2 ^ (- E).
Proof.
  intros HE1 HM1 HE2 HM2 Hk. unfold float_mul. cbn [Dnum Dexp].
  pose proof (pow2_pos (- E1) ltac:(lia)) as Hq1.
  pose proof (pow2_pos (- E2) ltac:(lia)) as Hq2.
  assert (Hq : 2 ^ (- (E1 + E2)) = 2 ^ (- E1) * 2 ^ (- E2)).
  { rewrite <- Z.pow_add_r by lia. f_equal. lia. }
  assert (Hsame : (if 0 <=? E1 + E2
                   then round_b64 (M1 * M2 * 2 ^ (E1 + E2)) 1
                   else round_b64 (M1 * M2) (2 ^ (- (E1 + E2))))
                  = round_b64 (M1 * M2) (2 ^ (- (E1 + E2)))).
  { destruct (Z.leb_spec 0 (E1 + E2)) as [H0|H0]; [|reflexivity].
    assert (E1 + E2 = 0) as -> by lia. change (- 0) with 0.
    rewrite Z.pow_0_r, Z.mul_1_r. reflexivity. }
  rewrite Hsame, Hq.
  set (q := 2 ^ (- E1) * 2 ^ (- E2)).
  assert (Hqpos : 0 < q) by (unfold q; nia).
  set (p := M1 * M2).
  assert (Hp : 2 * p = k * q) by (unfold p, q; subst M2; nia).
  destruct (Z.eq_dec k 0) as [Hk0|Hk0].
  { assert (p = 0) as -> by nia. subst k.
    exists 0, 0. split; [reflexivity|]. split; lia. }
  assert (Hppos : 0 < p) by nia.
  assert (Hl : ilog2 p q <= 51).
  { apply ilog2_upper; try lia. change (51 + 1) with 52.
    change (2 ^ 53) with (2 * 2 ^ 52) in Hk. nia. }
  rewrite round_b64_pos by lia.
  set (E := Z.max (ilog2 p q - 52) (- 1074)).
  assert (HE : E <= - 1) by (unfold E; lia).
  pose proof (pow2_pos (- E - 1) ltac:(lia)) as Ht.
  assert (Hpow : 2 ^ (- E) = 2 * 2 ^ (- E - 1)).
  { rewrite <- pow2_succ by lia. f_equal. lia. }
  assert (HM : rne (p * 2 ^ (- E)) q = k * 2 ^ (- E - 1)).
  { replace (p * 2 ^ (- E)) with (k * 2 ^ (- E - 1) * q) by nia.
    apply rne_exact. lia. }
  rewrite HM.
  assert (Hov : overflows (Dy (k * 2 ^ (- E - 1)) E) = false).
  { apply overflows_small; [lia | nia | nia]. }
  rewrite Hov. exists (k * 2 ^ (- E - 1)), E.
  split; [reflexivity|]. split; lia.
Qed.

Lemma py_round_half_exact (M E k : Z) :
  E <= 0 -> 2 * M = k * 2 ^ (- E) ->
  py_round (Finite (Dy M E)) = ret (rne k 2).
Proof.
  intros HE HM. unfold py_round.
  pose proof (pow2_pos (- E) ltac:(lia)) as Ht.
  destruct (Z.leb_spec 0 E) as [H0|H0].
  - assert (E = 0) by lia. subst E. change (- 0) with 0 in HM.
    rewrite Z.pow_0_r, Z.mul_1_r in *. f_equal.
    replace k with (M * 2) by lia. symmetry. apply rne_exact. lia.
  - f_equal. apply Z.le_antisymm; apply rne_mono; lia.
Qed.

(** X13: when two bins share the top count, the ratio is exactly 1/2 and
    the glyph sits at index [round((len-1)/2)] of the gradient: the bound
    of C10 is reached.  With the default gradient that glyph is 178. *)
Theorem tied_cell_middle_glyph
  (hist : list N) (mzx_pal : list (list Z)) (mzx_chars : list Z)
  (i j : nat) (c : N)
  (Hij : i <> j)
  (Hi : nth_error hist i = Some c)
  (Hj : nth_error hist j = Some c)
  (Hpos : (0 < c)%N)
  (Hmax : forall k c', nth_error hist k = Some c' -> (c' <= c)%N)
  (Hgrad : (1 <= length mzx_chars)%nat)
  (Hfits : Z.of_nat (length mzx_chars) <= 2 ^ 53) :
  exists winner second ratio half glyph color,
    top_two hist = ret (winner, second)
    /\ fst winner = c /\ fst second = c
    /\ winner_ratio winner second = ret ratio
    /\ (dy_Q ratio == 1 # 2)%Q
    /\ py_round_half (Z.of_nat (length mzx_chars) - 1) = ret half
    /\ winner_char_index ratio mzx_chars = ret half
    /\ py_index mzx_chars half = ret glyph
    /\ rank_histogram_to_col_and_char hist mzx_pal mzx_chars
       = ret (glyph, color)
    /\ (mzx_chars = default_chars -> glyph = 178).
Proof.
  assert (Hbins : (2 <= length hist)%nat).
  { assert (i < length hist)%nat by (apply nth_error_Some; congruence).
    assert (j < length hist)%nat by (apply nth_error_Some; congruence).
    lia. }
  destruct (top_two_spec hist Hbins)
    as (wc & wi & sc & si & rest & _ & Htop & Hw & Hs & Hne & Hws & HW & HS).
  unfold ranks_before in *. simpl in *.
  assert (Hwc : wc = c).
  { pose proof (Hmax wi wc Hw).
    destruct (Nat.eq_dec i wi) as [->|Hiw]; [congruence|].
    pose proof (HW i c Hi Hiw). lia. }
  subst wc.
  assert (Hsc : sc = c).
  { pose proof (Hmax si sc Hs).
    assert (Hk : exists k, k <> wi /\ nth_error hist k = Some c).
    { destruct (Nat.eq_dec i wi) as [->|Hiw];
        [exists j; split; [congruence | exact Hj]
        |exists i; split; [exact Hiw | exact Hi]]. }
    destruct Hk as (k & Hkw & Hk).
    destruct (Nat.eq_dec k si) as [->|Hks]; [congruence|].
    pose proof (HS k c Hk Hkw Hks). lia. }
  subst sc.
  set (k := Z.of_nat (length mzx_chars) - 1).
  assert (Hk : 0 <= k < 2 ^ 53) by (unfold k; lia).
  destruct (truediv_half (Z.of_N c) ltac:(lia)) as (M & E & Hdiv & HE & HM).
  destruct (float_of_int_exact k Hk) as (M2 & E2 & Hconv & HE2 & HM2).
  destruct (float_mul_half M E M2 E2 k ltac:(lia) HM HE2 HM2 Hk)
    as (M3 & E3 & Hmul & HE3 & HM3).
  pose proof (py_round_half_exact M3 E3 k HE3 HM3) as Hround.
  assert (Hlo : 0 <= rne k 2) by (apply (rne_ge_int 0); lia).
  assert (Hhi : rne k 2 <= k) by (apply rne_le_int; lia).
  destruct (py_index_in mzx_chars (rne k 2) ltac:(lia)) as (glyph & Hg & Hnth).
  assert (Hratio : winner_ratio (c, wi) (c, si) = ret (Dy M E)).
  { unfold winner_ratio. cbn [fst]. exact Hdiv. }
  assert (Hindex : winner_char_index (Dy M E) mzx_chars = ret (rne k 2)).
  { unfold winner_char_index. fold k. rewrite Hconv. cbn [bind ret].
    rewrite Hmul. exact Hround. }
  exists (c, wi), (c, si), (Dy M E), (rne k 2), glyph,
    (Z.of_nat wi mod 16 + (Z.of_nat si mod 16) * 16).
  split; [exact Htop|]. split; [reflexivity|]. split; [reflexivity|].
  split; [exact Hratio|]. split.
  { rewrite dy_Q_neg by lia. unfold Qeq. cbn [Qnum Qden].
    rewrite Z2Pos.id by (apply pow2_pos; lia). lia. }
  split; [apply py_round_half_rne; exact Hk|].
  split; [exact Hindex|]. split; [exact Hg|]. split.
  - unfold rank_histogram_to_col_and_char.
    rewrite Htop. cbn [bind ret snd].
    rewrite Hratio. cbn [bind ret]. rewrite Hindex. cbn [bind ret].
    rewrite Hg. reflexivity.
  - intros Hdef. unfold k in Hnth. rewrite Hdef in Hnth.
    simpl in Hnth. congruence.
Qed.

Lemma tied_cell_middle_glyph_witness :
  exists winner second ratio half glyph color,
    top_two hist_tied = ret (winner, second)
    /\ fst winner = 56%N /\ fst second = 56%N
    /\ winner_ratio winner second = ret ratio
    /\ (dy_Q ratio == 1 # 2)%Q
    /\ py_round_half (Z.of_nat (length default_chars) - 1) = ret half
    /\ winner_char_index ratio default_chars = ret half
    /\ py_index default_chars half = ret glyph
    /\ rank_histogram_to_col_and_char hist_tied [] default_chars
       = ret (glyph, color)
    /\ (default_chars = default_chars -> glyph = 178).
Proof.
  apply (tied_cell_middle_glyph hist_tied [] default_chars 1 3 56%N).
  - discriminate.
  - reflexivity.
  - reflexivity.
  - reflexivity.
  - intros k c' Hk.
    do 256 (destruct k as [|k];
            [injection Hk as <-; vm_compute; discriminate|]).
    destruct k; discriminate Hk.
  - vm_compute; lia.
  - vm_compute; discriminate.
Defined.

(** ** Crops and histograms *)

Lemma length_histogram (px : list Z) : length (histogram px) = 256%nat.
Proof. unfold histogram. rewrite length_map, length_seq. reflexivity. Qed.

Lemma nth_error_histogram (px : list Z) (b : nat) :
  (b < 256)%nat ->
  nth_error (histogram px) b
  = Some (N.of_nat (length (filter (Z.eqb (Z.of_nat b)) px))).
Proof.
  intros Hb. unfold histogram.
  rewrite nth_error_map, nth_error_seq.
  destruct (Nat.ltb_spec b 256) as [_|?]; [|lia]. reflexivity.
Qed.

Lemma total_map_add (f g : nat -> N) (l : list nat) :
  total (map (fun b => (f b + g b)%N) l)
  = (total (map f l) + total (map g l))%N.
Proof. induction l as [|b l IH]; simpl; [reflexivity|]. rewrite IH. lia. Qed.

Lemma total_indicator (v : Z) (s n : nat) :
  total (map (fun b => if Z.of_nat b =? v then 1%N else 0%N) (seq s n))
  = if (Z.of_nat s <=? v) && (v <? Z.of_nat (s + n)) then 1%N else 0%N.
Proof.
  revert s. induction n as [|n IH]; intros s.
  - simpl. destruct (Z.leb_spec (Z.of_nat s) v);
      destruct (Z.ltb_spec v (Z.of_nat (s + 0))); simpl; try reflexivity. lia.
  - cbn [seq map total fold_right]. fold (total (map
      (fun b => if Z.of_nat b =? v then 1%N else 0%N) (seq (S s) n))).
    rewrite IH.
    destruct (Z.eqb_spec (Z.of_nat s) v);
      destruct (Z.leb_spec (Z.of_nat s) v);
      destruct (Z.leb_spec (Z.of_nat (S s)) v);
      destruct (Z.ltb_spec v (Z.of_nat (S s + n)));
      destruct (Z.ltb_spec v (Z.of_nat (s + S n)));
      simpl; try reflexivity; lia.
Qed.

(** Every pixel with an index below 256 lands in exactly one bin. *)
Lemma total_histogram (px : list Z) :
  Forall (fun v => 0 <= v < 256) px ->
  total (histogram px) = N.of_nat (length px).
Proof.
  induction 1 as [|v px Hv _ IH]; [reflexivity|].
  unfold histogram in *.
  rewrite (map_ext _ (fun b =>
             ((if (Z.of_nat b =? v)%Z then 1 else 0)
              + N.of_nat (length (filter (Z.eqb (Z.of_nat b)) px)))%N)).
  - rewrite total_map_add, IH, total_indicator.
    destruct (Z.leb_spec (Z.of_nat 0) v); [|lia].
    destruct (Z.ltb_spec v (Z.of_nat (0 + 256))); [|lia].
    cbn [andb length]. lia.
  - intros b. cbn [filter]. destruct (Z.of_nat b =? v); cbn [length]; lia.
Qed.

Lemma length_zrange (lo hi : Z) : length (zrange lo hi) = Z.to_nat (hi - lo).
Proof. unfold zrange. rewrite length_map, length_seq. reflexivity. Qed.

Lemma In_zrange (lo hi v : Z) : In v (zrange lo hi) <-> lo <= v < hi.
Proof.
  unfold zrange. rewrite in_map_iff. split.
  - intros (k & <- & Hk). apply in_seq in Hk. lia.
  - intros Hv. exists (Z.to_nat (v - lo)). split; [lia|].
    apply in_seq. lia.
Qed.

Lemma nth_error_zrange (n : Z) (k : nat) :
  (k < Z.to_nat n)%nat -> nth_error (zrange 0 n) k = Some (Z.of_nat k).
Proof.
  intros Hk. unfold zrange. rewrite Z.sub_0_r.
  rewrite nth_error_map, nth_error_seq.
  destruct (Nat.ltb_spec k (Z.to_nat n)) as [_|?]; [|lia]. reflexivity.
Qed.

Lemma length_crop (im : pimage) (lx uy rx dy : Z) :
  length (crop im lx uy rx dy)
  = (Z.to_nat (dy - uy) * Z.to_nat (rx - lx))%nat.
Proof.
  unfold crop. rewrite <- (length_zrange uy dy).
  induction (zrange uy dy) as [|y ys IH]; [reflexivity|].
  cbn [flat_map length]. rewrite length_app, IH, length_map, length_zrange.
  lia.
Qed.

Lemma In_crop (im : pimage) (lx uy rx dy v : Z) :
  In v (crop im lx uy rx dy) ->
  exists px py, lx <= px < rx /\ uy <= py < dy /\ v = getpixel im px py.
Proof.
  unfold crop. intros Hin. apply in_flat_map in Hin.
  destruct Hin as (py & Hy & Hin). apply in_map_iff in Hin.
  destruct Hin as (px & <- & Hx).
  apply In_zrange in Hy. apply In_zrange in Hx.
  exists px, py. repeat split; lia.
Qed.

Lemma getpixel_range (im : pimage) (x y : Z) :
  indices_in_range im -> 0 <= getpixel im x y < 256.
Proof.
  intros Him. unfold getpixel.
  destruct ((x <? 0) || (y <? 0)); [lia|].
  unfold indices_in_range in Him. rewrite Forall_forall in Him.
  destruct (nth_in_or_default (Z.to_nat y) im []) as [Hrow | ->].
  - specialize (Him _ Hrow). rewrite Forall_forall in Him.
    destruct (nth_in_or_default (Z.to_nat x) (nth (Z.to_nat y) im []) 0)
      as [Hv | ->]; [apply Him; exact Hv | lia].
  - destruct (Z.to_nat x); simpl; lia.
Qed.

Lemma crop_in_range (im : pimage) (lx uy rx dy : Z) :
  indices_in_range im -> Forall (fun v => 0 <= v < 256) (crop im lx uy rx dy).
Proof.
  intros Him. apply Forall_forall. intros v Hv.
  destruct (In_crop _ _ _ _ _ _ Hv) as (px & py & _ & _ & ->).
  apply getpixel_range. exact Him.
Qed.

(** ** Reducing one cell *)

Lemma single_bin_reduce
  (hist : list N) (pal : list (list Z)) (mzx_chars : list Z)
  (i : nat) (c : N) :
  (2 <= length hist)%nat ->
  nth_error hist i = Some c -> (0 < c)%N ->
  (forall k c', nth_error hist k = Some c' -> k <> i -> c' = 0%N) ->
  (1 <= length mzx_chars)%nat ->
  Z.of_nat (length mzx_chars) <= 2 ^ 53 ->
  rank_histogram_to_col_and_char hist pal mzx_chars
  = ret (last mzx_chars 0,
         Z.of_nat i mod 16 + (if (i =? 0)%nat then 16 else 0)).
Proof.
  intros Hbins Hbin Hpos Hothers Hgrad Hfits.
  destruct (top_two_spec hist Hbins)
    as (wc & wi & sc & si & rest & _ & Htop & Hw & Hs & Hne & Hws & HW & HS).
  unfold ranks_before in *. simpl in *.
  assert (Hwi : wi = i).
  { destruct (Nat.eq_dec i wi) as [->|Hiw]; [reflexivity|].
    pose proof (HW i c Hbin Hiw) as Hr.
    assert (wc = 0%N) by (apply (Hothers wi wc Hw); congruence).
    lia. }
  subst wi. assert (wc = c) by congruence. subst wc.
  assert (Hsc : sc = 0%N) by (apply (Hothers si sc Hs); congruence).
  assert (Hsi : si = if (i =? 0)%nat then 1%nat else 0%nat).
  { assert (Hlow : forall k, (k < length hist)%nat -> k <> i -> k <> si ->
                     (si < k)%nat).
    { intros k Hk Hki Hks.
      destruct (nth_error hist k) as [c'|] eqn:Ek;
        [|apply nth_error_None in Ek; lia].
      pose proof (Hothers k c' Ek Hki) as Hc0.
      pose proof (HS k c' Ek Hki Hks). lia. }
    destruct (Nat.eqb_spec i 0) as [Hi0|Hi0].
    - destruct (Nat.eq_dec si 1) as [H1|H1]; [exact H1|].
      pose proof (Hlow 1%nat ltac:(lia) ltac:(lia) ltac:(lia)). lia.
    - destruct (Nat.eq_dec si 0) as [H0|H0]; [exact H0|].
      pose proof (Hlow 0%nat ltac:(lia) ltac:(lia) ltac:(lia)). lia. }
  destruct (reducer_core hist pal mzx_chars c i sc si Htop ltac:(lia)
              Hpos Hgrad Hfits)
    as (M & E & index & glyph & _ & _ & _ & _ & _ & _
        & _ & _ & Hlast & _ & Hnth & Hrun).
  specialize (Hlast Hsc). subst index.
  rewrite Hrun. f_equal. f_equal.
  - symmetry. apply nth_error_last.
    replace (length mzx_chars - 1)%nat
      with (Z.to_nat (Z.of_nat (length mzx_chars) - 1)) by lia.
    exact Hnth.
  - rewrite Hsi. destruct (i =? 0)%nat; reflexivity.
Qed.

Lemma filter_all_same (p b : Z) (px : list Z) :
  Forall (fun v => v = p) px ->
  length (filter (Z.eqb b) px) = if b =? p then length px else 0%nat.
Proof.
  induction 1 as [|v px -> _ IH]; cbn [filter length].
  - destruct (b =? p); reflexivity.
  - destruct (b =? p); cbn [length]; rewrite IH; reflexivity.
Qed.

(** X14: a cell whose pixels all show palette index [p] gets the last
    glyph of the gradient, with [p mod 16] in the low half of the colour.
    The high half is not [p]: the runner-up is the lowest empty bin, bin 0,
    or bin 1 when [p] is 0. *)
Theorem uniform_cell_reduction
  (a : args) (newim : pimage) (mzx_pal : list (list Z)) (mzx_chars : list Z)
  (y x p : Z)
  (Hcw : 0 < char_width a)
  (Hch : 0 < char_height a)
  (Hp : 0 <= p < 256)
  (Hunif : uniform_cell a newim y x p)
  (Hgrad : (1 <= length mzx_chars)%nat)
  (Hfits : Z.of_nat (length mzx_chars) <= 2 ^ 53) :
  cell a newim mzx_pal mzx_chars y x
  = ret (last mzx_chars 0, p mod 16 + (if p =? 0 then 16 else 0)).
Proof.
  unfold cell.
  set (px := crop newim (x * char_width a) (y * char_height a)
                  (x * char_width a + char_width a)
                  (y * char_height a + char_height a)).
  assert (Hall : Forall (fun v => v = p) px).
  { apply Forall_forall. intros v Hv.
    destruct (In_crop _ _ _ _ _ _ Hv) as (qx & qy & Hx & Hy & ->).
    apply Hunif; assumption. }
  assert (Hlen : (0 < length px)%nat).
  { unfold px. rewrite length_crop.
    replace (y * char_height a + char_height a - y * char_height a)
      with (char_height a) by lia.
    replace (x * char_width a + char_width a - x * char_width a)
      with (char_width a) by lia.
    nia. }
  rewrite (single_bin_reduce (histogram px) mzx_pal mzx_chars
             (Z.to_nat p) (N.of_nat (length px))).
  - rewrite Z2Nat.id by lia. f_equal. f_equal. f_equal.
    destruct (Nat.eqb_spec (Z.to_nat p) 0); destruct (Z.eqb_spec p 0);
      try reflexivity; lia.
  - rewrite length_histogram. lia.
  - rewrite nth_error_histogram by lia.
    rewrite (filter_all_same p) by exact Hall.
    rewrite Z2Nat.id, Z.eqb_refl by lia. reflexivity.
  - lia.
  - intros k c' Hk Hne.
    assert (Hk256 : (k < 256)%nat).
    { rewrite <- (length_histogram px). apply nth_error_Some. congruence. }
    rewrite nth_error_histogram in Hk by exact Hk256.
    rewrite (filter_all_same p) in Hk by exact Hall.
    destruct (Z.eqb_spec (Z.of_nat k) p) as [Hkp|_]; [lia|].
    injection Hk as <-. reflexivity.
  - exact Hgrad.
  - exact Hfits.
Qed.

Lemma uniform_cell_reduction_witness :
  cell args_small small_image [] default_chars 0 0
  = ret (last default_chars 0, 5 mod 16 + (if 5 =? 0 then 16 else 0)).
Proof.
  apply (uniform_cell_reduction args_small small_image [] default_chars 0 0 5).
  - reflexivity.
  - reflexivity.
  - lia.
  - intros px py Hx Hy. simpl in Hx, Hy.
    assert (Hpx : px = 0 \/ px = 1) by lia.
    assert (Hpy : py = 0 \/ py = 1) by lia.
    destruct Hpx as [-> | ->]; destruct Hpy as [-> | ->]; reflexivity.
  - vm_compute; lia.
  - vm_compute; discriminate.
Defined.

(** X15: for a quantised image of palette indices, the histogram handed to
    the reducer has 256 bins and counts each pixel of the cell once: its
    total is the cell's width times its height. *)
Theorem cell_histogram_counts_area
  (a : args) (newim : pimage) (y x : Z)
  (Him : indices_in_range newim)
  (Hcw : 0 <= char_width a)
  (Hch : 0 <= char_height a) :
  let hist := histogram (crop newim (x * char_width a) (y * char_height a)
                              (x * char_width a + char_width a)
                              (y * char_height a + char_height a)) in
  length hist = 256%nat
  /\ total hist = Z.to_N (char_width a * char_height a).
Proof.
  intros hist. split; [apply length_histogram|].
  unfold hist. rewrite total_histogram by (apply crop_in_range; exact Him).
  rewrite length_crop.
  replace (y * char_height a + char_height a - y * char_height a)
    with (char_height a) by lia.
  replace (x * char_width a + char_width a - x * char_width a)
    with (char_width a) by lia.
  nia.
Qed.

Lemma cell_histogram_counts_area_witness :
  let hist := histogram (crop small_image (1 * char_width args_small)
                              (0 * char_height args_small)
                              (1 * char_width args_small + char_width args_small)
                              (0 * char_height args_small
                               + char_height args_small)) in
  length hist = 256%nat
  /\ total hist = Z.to_N (char_width args_small * char_height args_small).
Proof.
  apply (cell_histogram_counts_area args_small small_image 0 1).
  - repeat constructor; lia.
  - simpl; lia.
  - simpl; lia.
Defined.

(** ** Building the layer *)

Lemma cell_ok (a : args) (newim : pimage) (mzx_pal : list (list Z))
  (mzx_chars : list Z) (y x : Z) :
  indices_in_range newim ->
  0 < char_width a -> 0 < char_height a ->
  (1 <= length mzx_chars)%nat -> Z.of_nat (length mzx_chars) <= 2 ^ 53 ->
  exists p, cell a newim mzx_pal mzx_chars y x = ret p
            /\ In (fst p) mzx_chars /\ 0 <= snd p <= 255.
Proof.
  intros Him Hcw Hch Hgrad Hfits. unfold cell.
  set (px := crop newim (x * char_width a) (y * char_height a)
                  (x * char_width a + char_width a)
                  (y * char_height a + char_height a)).
  assert (Htotal : (0 < total (histogram px))%N).
  { unfold px. rewrite total_histogram by (apply crop_in_range; exact Him).
    rewrite length_crop.
    replace (y * char_height a + char_height a - y * char_height a)
      with (char_height a) by lia.
    replace (x * char_width a + char_width a - x * char_width a)
      with (char_width a) by lia.
    nia. }
  assert (Hbins : (2 <= length (histogram px))%nat)
    by (rewrite length_histogram; lia).
  destruct (top_two_counts _ Hbins) as (wc & wi & sc & si & Htop & Hle & Hmax).
  destruct (total_pos _ Htotal) as (k & c & Hk & Hc).
  pose proof (Hmax k c Hk) as Hcw'.
  destruct (reducer_core (histogram px) mzx_pal mzx_chars wc wi sc si Htop Hle
              ltac:(lia) Hgrad Hfits)
    as (M & E & index & glyph & _ & _ & _ & _ & _ & _
        & _ & _ & _ & _ & Hnth & Hrun).
  eexists. split; [exact Hrun|]. cbn [fst snd]. split.
  - apply (nth_error_In _ _ Hnth).
  - pose proof (Z.mod_pos_bound (Z.of_nat wi) 16 ltac:(lia)).
    pose proof (Z.mod_pos_bound (Z.of_nat si) 16 ltac:(lia)). lia.
Qed.

Lemma mapM_exists {A B : Type} (f : A -> result B) (l : list A)
  (P : B -> Prop) :
  (forall x, In x l -> exists b, f x = ret b /\ P b) ->
  exists bs, mapM f l = ret bs /\ length bs = length l /\ Forall P bs.
Proof.
  induction l as [|x l IH]; intros H.
  - exists []. repeat split. constructor.
  - destruct (H x (or_introl eq_refl)) as (b & Hb & Pb).
    destruct IH as (bs & Hbs & Hlen & HP).
    { intros x' Hx'. apply H. right. exact Hx'. }
    exists (b :: bs). cbn [mapM]. rewrite Hb. cbn [bind ret].
    rewrite Hbs. cbn [bind ret length]. rewrite Hlen.
    repeat split. constructor; assumption.
Qed.

Lemma length_concat_uniform {A : Type} (rows : list (list A)) (W : nat) :
  Forall (fun r => length r = W) rows ->
  length (concat rows) = (length rows * W)%nat.
Proof.
  induction 1 as [|r rows Hr _ IH]; simpl; [reflexivity|].
  rewrite length_app, Hr, IH. reflexivity.
Qed.

Lemma nth_error_concat_uniform {A : Type} (rows : list (list A))
  (W y x : nat) :
  Forall (fun r => length r = W) rows -> (x < W)%nat ->
  nth_error (concat rows) (y * W + x)
  = match nth_error rows y with
    | Some r => nth_error r x
    | None => None
    end.
Proof.
  intros Hrows Hx. revert y.
  induction Hrows as [|r rows Hr _ IH]; intros y.
  - assert (Hnil : forall (B : Type) n, nth_error (@nil B) n = None)
      by (intros B []; reflexivity).
    cbn [concat]. rewrite !Hnil. reflexivity.
  - destruct y as [|y]; cbn [concat nth_error].
    + rewrite nth_error_app1 by lia. reflexivity.
    + rewrite nth_error_app2 by (simpl; lia).
      replace (S y * W + x - length r)%nat with (y * W + x)%nat
        by (simpl; lia).
      apply IH.
Qed.

Lemma Forall2_nth_error {A B : Type} (R : A -> B -> Prop)
  (l : list A) (l' : list B) (k : nat) (a : A) :
  Forall2 R l l' -> nth_error l k = Some a ->
  exists b, nth_error l' k = Some b /\ R a b.
Proof.
  intros H. revert k. induction H as [|x y l l' Hxy _ IH]; intros k Hk.
  - destruct k; discriminate Hk.
  - destruct k as [|k]; simpl in *.
    + injection Hk as <-. exists y. split; [reflexivity | exact Hxy].
    + apply IH. exact Hk.
Qed.

Section LayerBuilder.

Variable image : Type.
Variable resize : image -> Z -> Z -> result image.
Variable quantize_image : image -> list Z -> result pimage.

(** X16: when Pillow returns an image of palette indices, the cells have
    positive width and height and the gradient is not empty, the builder
    returns one pair per cell of the grid, each with a glyph of the gradient
    and a colour that is a byte. *)
Theorem mad_science_layer
  (a : args) (im im2 : image) (newim : pimage) (pil_pal : list Z)
  (mzx_pal : list (list Z)) (mzx_chars : list Z)
  (Hresize : resize im (width a * char_width a) (height a * char_height a)
             = ret im2)
  (Hquant : quantize_image im2 (diffusion_table pil_pal) = ret newim)
  (Him : indices_in_range newim)
  (Hcw : 0 < char_width a)
  (Hch : 0 < char_height a)
  (Hgrad : (1 <= length mzx_chars)%nat)
  (Hfits : Z.of_nat (length mzx_chars) <= 2 ^ 53) :
  exists layer,
    mad_science image resize quantize_image a im pil_pal mzx_pal mzx_chars
    = ret layer
    /\ length layer = (Z.to_nat (height a) * Z.to_nat (width a))%nat
    /\ Forall (fun p => In (fst p) mzx_chars /\ 0 <= snd p <= 255) layer.
Proof.
  unfold mad_science. rewrite Hresize. cbn [bind ret].
  rewrite Hquant. cbn [bind ret].
  set (Q := fun p : Z * Z => In (fst p) mzx_chars /\ 0 <= snd p <= 255).
  destruct (mapM_exists
              (fun y => mapM (cell a newim mzx_pal mzx_chars y)
                             (zrange 0 (width a)))
              (zrange 0 (height a))
              (fun row => length row = Z.to_nat (width a) /\ Forall Q row))
    as (rows & Hrows & Hlen & Hall).
  { intros y _.
    destruct (mapM_exists (cell a newim mzx_pal mzx_chars y)
                (zrange 0 (width a)) Q) as (row & Hrow & Hl & HQ).
    { intros x _. apply cell_ok; assumption. }
    exists row. split; [exact Hrow|]. split; [|exact HQ].
    rewrite Hl, length_zrange. f_equal. lia. }
  exists (concat rows). rewrite Hrows. cbn [bind ret].
  split; [reflexivity|]. split.
  - rewrite (length_concat_uniform rows (Z.to_nat (width a))).
    + rewrite Hlen, length_zrange. f_equal. f_equal. lia.
    + eapply Forall_impl; [|exact Hall]. intros r [Hr _]. exact Hr.
  - apply Forall_forall. intros p Hp. apply in_concat in Hp.
    destruct Hp as (row & Hrow & Hp).
    rewrite Forall_forall in Hall. destruct (Hall row Hrow) as [_ HQ].
    rewrite Forall_forall in HQ. apply HQ. exact Hp.
Qed.

(** X17: the layer is in row-major order: whenever the builder returns,
    Pillow returned an image, the layer has one pair for each [y] of
    [range(height)] and [x] of [range(width)], that is
    [max(height, 0) * max(width, 0)] pairs, and the pair at position
    [y * width + x] is the reduction of cell [(x, y)]. *)
Theorem mad_science_row_major
  (a : args) (im : image) (pil_pal : list Z)
  (mzx_pal : list (list Z)) (mzx_chars : list Z) (layer : list (Z * Z))
  (Hrun : mad_science image resize quantize_image a im pil_pal
            mzx_pal mzx_chars = ret layer) :
  exists im2 newim,
    resize im (width a * char_width a) (height a * char_height a) = ret im2
    /\ quantize_image im2 (diffusion_table pil_pal) = ret newim
    /\ length layer = (Z.to_nat (height a) * Z.to_nat (width a))%nat
    /\ forall x y, 0 <= x < width a -> 0 <= y < height a ->
         exists p,
           nth_error layer (Z.to_nat (y * width a + x)) = Some p
           /\ cell a newim mzx_pal mzx_chars y x = ret p.
Proof.
  unfold mad_science in Hrun.
  destruct (resize im (width a * char_width a) (height a * char_height a))
    as [e|im2]; [discriminate Hrun|]. cbn [bind] in Hrun.
  destruct (quantize_image im2 (diffusion_table pil_pal)) as [e|newim] eqn:Hq;
    [discriminate Hrun|]. cbn [bind] in Hrun.
  destruct (mapM (fun y => mapM (cell a newim mzx_pal mzx_chars y)
                                (zrange 0 (width a)))
                 (zrange 0 (height a))) as [e|rows] eqn:Hrows;
    [discriminate Hrun|]. cbn [bind ret] in Hrun. injection Hrun as <-.
  apply mapM_inr in Hrows.
  assert (Hwidths : Forall (fun r => length r = Z.to_nat (width a)) rows).
  { apply Forall_forall. intros r Hr.
    destruct (In_nth_error _ _ Hr) as (k & Hk).
    assert (Hk' : (k < length (zrange 0 (height a)))%nat).
    { rewrite (Forall2_length_eq _ _ _ Hrows).
      apply nth_error_Some. congruence. }
    destruct (nth_error (zrange 0 (height a)) k) as [y|] eqn:Ey;
      [|apply nth_error_None in Ey; lia].
    destruct (Forall2_nth_error _ _ _ _ _ Hrows Ey) as (r' & Hr' & Hrow).
    assert (r' = r) by congruence. subst r'.
    apply mapM_inr, Forall2_length_eq in Hrow.
    rewrite <- Hrow, length_zrange. f_equal. lia. }
  exists im2, newim. split; [reflexivity|]. split; [exact Hq|]. split.
  - rewrite (length_concat_uniform rows _ Hwidths).
    rewrite <- (Forall2_length_eq _ _ _ Hrows), length_zrange.
    f_equal. f_equal. lia.
  - intros x y Hx Hy.
    assert (Hyk : nth_error (zrange 0 (height a)) (Z.to_nat y) = Some y).
    { rewrite nth_error_zrange by lia. f_equal. lia. }
    destruct (Forall2_nth_error _ _ _ _ _ Hrows Hyk) as (row & Hrow & Hcells).
    apply mapM_inr in Hcells.
    assert (Hxk : nth_error (zrange 0 (width a)) (Z.to_nat x) = Some x).
    { rewrite nth_error_zrange by lia. f_equal. lia. }
    destruct (Forall2_nth_error _ _ _ _ _ Hcells Hxk) as (p & Hp & Hcell).
    exists p. split; [|exact Hcell].
    replace (Z.to_nat (y * width a + x))
      with (Z.to_nat y * Z.to_nat (width a) + Z.to_nat x)%nat by nia.
    rewrite (nth_error_concat_uniform rows _ _ _ Hwidths) by lia.
    rewrite Hrow. exact Hp.
Qed.

(** X18: a grid without cells gives the empty layer: when Pillow returns
    an image although the width or the height is zero or less, as it does
    for a negative width with a negative cell width, the loops run over an
    empty range and no cell is reduced. *)
Theorem mad_science_empty_grid
  (a : args) (im im2 : image) (newim : pimage) (pil_pal : list Z)
  (mzx_pal : list (list Z)) (mzx_chars : list Z)
  (Hresize : resize im (width a * char_width a) (height a * char_height a)
             = ret im2)
  (Hquant : quantize_image im2 (diffusion_table pil_pal) = ret newim)
  (Hempty : width a <= 0 \/ height a <= 0) :
  mad_science image resize quantize_image a im pil_pal mzx_pal mzx_chars
  = ret [].
Proof.
  unfold mad_science. rewrite Hresize. cbn [bind ret].
  rewrite Hquant. cbn [bind ret].
  destruct (mapM_exists
              (fun y => mapM (cell a newim mzx_pal mzx_chars y)
                             (zrange 0 (width a)))
              (zrange 0 (height a))
              (fun row => width a <= 0 -> row = []))
    as (rows & -> & Hlen & Hall).
  { intros y Hy. destruct (Z.le_gt_cases (width a) 0) as [Hw|Hw].
    - exists []. split; [|reflexivity].
      unfold zrange. replace (Z.to_nat (width a - 0)) with 0%nat by lia.
      reflexivity.
    - destruct (mapM (cell a newim mzx_pal mzx_chars y) (zrange 0 (width a)))
        as [e|row] eqn:E.
      + exfalso. destruct Hempty as [?|Hh]; [lia|].
        assert (Hnil : zrange 0 (height a) = []).
        { unfold zrange. replace (Z.to_nat (height a - 0)) with 0%nat by lia.
          reflexivity. }
        rewrite Hnil in Hy. contradiction.
      + exists row. split; [reflexivity | lia]. }
  cbn [bind ret]. f_equal.
  destruct Hempty as [Hw|Hh].
  - clear Hlen. induction Hall as [|r rows Hr _ IH]; [reflexivity|].
    simpl. rewrite (Hr Hw), IH. reflexivity.
  - rewrite length_zrange in Hlen.
    replace (Z.to_nat (height a - 0)) with 0%nat in Hlen by lia.
    destruct rows; [reflexivity | discriminate Hlen].
Qed.

End LayerBuilder.

Lemma mad_science_layer_witness :
  exists layer,
    mad_science unit stub_resize (stub_quantize small_image) args_small tt
      (make_8bit_palette DEFAULT_PALETTE) DEFAULT_PALETTE default_chars
    = ret layer
    /\ length layer = (Z.to_nat (height args_small)
                       * Z.to_nat (width args_small))%nat
    /\ Forall (fun p => In (fst p) default_chars /\ 0 <= snd p <= 255) layer.
Proof.
  apply (mad_science_layer unit stub_resize (stub_quantize small_image)
           args_small tt tt small_image).
  - reflexivity.
  - reflexivity.
  - repeat constructor; lia.
  - reflexivity.
  - reflexivity.
  - vm_compute; lia.
  - vm_compute; discriminate.
Defined.

Lemma mad_science_row_major_witness :
  exists im2 newim,
    stub_resize tt (width args_small * char_width args_small)
      (height args_small * char_height args_small) = ret im2
    /\ stub_quantize small_image im2
         (diffusion_table (make_8bit_palette DEFAULT_PALETTE)) = ret newim
    /\ length small_layer = (Z.to_nat (height args_small)
                             * Z.to_nat (width args_small))%nat
    /\ forall x y, 0 <= x < width args_small -> 0 <= y < height args_small ->
         exists p,
           nth_error small_layer (Z.to_nat (y * width args_small + x)) = Some p
           /\ cell args_small newim DEFAULT_PALETTE default_chars y x = ret p.
Proof.
  apply (mad_science_row_major unit stub_resize (stub_quantize small_image)
           args_small tt (make_8bit_palette DEFAULT_PALETTE)
           DEFAULT_PALETTE default_chars small_layer).
  vm_compute. reflexivity.
Defined.

Lemma mad_science_empty_grid_witness :
  mad_science unit stub_resize (stub_quantize []) args_empty_grid tt
    (make_8bit_palette DEFAULT_PALETTE) DEFAULT_PALETTE default_chars
  = ret [].
Proof.
  apply (mad_science_empty_grid unit stub_resize (stub_quantize [])
           args_empty_grid tt tt []).
  - reflexivity.
  - reflexivity.
  - left. simpl. lia.
Defined.

(** ** The whole run *)



Section WholeRun.

Variable image : Type.
Variable image_open : filesystem -> string -> result image.
Variable resize : image -> Z -> Z -> result image.
Variable quantize_image : image -> list Z -> result pimage.



(** X20: the configuration is checked before the image is touched: a
    palette that does not load ends the run with its error, even when the
    gradient is bad too; with a good palette a gradient that does not parse
    ends the run with its error.  In both cases nothing is decoded and
    nothing is written. *)
Theorem main_config_errors_first (fs : filesystem) (a : args) (e : exn) :
  (get_palette fs a = raise e ->
     main image image_open resize quantize_image fs a = (fs, raise e))
  /\ (forall pal, get_palette fs a = ret pal -> get_chars a = raise e ->
        main image image_open resize quantize_image fs a = (fs, raise e)
        /\ e = ValueError).
Proof.
  unfold main. split.
  - intros ->. reflexivity.
  - intros pal -> Hc. rewrite Hc. split; [reflexivity|].
    unfold get_chars in Hc. apply mapM_inl in Hc.
    apply Exists_exists in Hc. destruct Hc as (t & _ & Ht).
    destruct (py_int_cases t) as [[z Hz]|Hv]; unfold ret, raise in *;
      congruence.
Qed.


End WholeRun.

Lemma main_config_errors_first_witness :
  (get_palette fs_short_palette args_short_palette = raise IndexError ->
     main unit stub_open stub_resize (stub_quantize [])
       fs_short_palette args_short_palette
     = (fs_short_palette, raise IndexError))
  /\ (forall pal, get_palette fs_short_palette args_short_palette = ret pal ->
        get_chars args_short_palette = raise IndexError ->
        main unit stub_open stub_resize (stub_quantize [])
          fs_short_palette args_short_palette
        = (fs_short_palette, raise IndexError)
        /\ IndexError = ValueError).
Proof.
  apply (main_config_errors_first unit stub_open stub_resize
           (stub_quantize []) fs_short_palette args_short_palette IndexError).
Defined.


(** ** Rounding is monotone *)

Lemma pow2_le_anti (e e' p q : Z) :
  0 < p -> 0 < q -> e' <= e -> pow2_le e p q -> pow2_le e' p q.
Proof.
  unfold pow2_le. intros Hp Hq He.
  destruct (Z.leb_spec 0 e) as [H0|H0]; destruct (Z.leb_spec 0 e') as [H0'|H0'];
    intros H; try lia.
  - assert (2 ^ e' <= 2 ^ e) by (apply Z.pow_le_mono_r; lia). nia.
  - pose proof (pow2_pos e H0). pose proof (pow2_pos (- e') ltac:(lia)). nia.
  - assert (2 ^ (- e) <= 2 ^ (- e')) by (apply Z.pow_le_mono_r; lia). nia.
Qed.

Lemma pow2_le_mono (e p q p' q' : Z) :
  0 < q -> 0 < q' -> p * q' <= p' * q -> pow2_le e p q -> pow2_le e p' q'.
Proof.
  unfold pow2_le. intros Hq Hq' Hle.
  destruct (Z.leb_spec 0 e) as [H0|H0]; intros H.
  - pose proof (pow2_pos e H0) as Ht.
    assert (q * (q' * 2 ^ e) <= q * p') by nia. nia.
  - pose proof (pow2_pos (- e) ltac:(lia)) as Ht.
    assert (q * q' <= q * (p' * 2 ^ (- e))) by nia. nia.
Qed.

Lemma ilog2_spec (p q : Z) :
  0 < p -> 0 < q ->
  pow2_le (ilog2 p q) p q /\ ~ pow2_le (ilog2 p q + 1) p q.
Proof.
  intros Hp Hq. unfold ilog2, pow2_le.
  destruct (Z.log2_spec p Hp) as [Hp1 Hp2].
  destruct (Z.log2_spec q Hq) as [Hq1 Hq2].
  pose proof (Z.log2_nonneg p) as Hlp.
  pose proof (Z.log2_nonneg q) as Hlq.
  set (lp := Z.log2 p) in *. set (lq := Z.log2 q) in *.
  rewrite <- Z.add_1_r in Hp2, Hq2.
  destruct (Z.leb_spec 0 (lp - lq)) as [Hd|Hd].
  - assert (Hpow : 2 ^ lp = 2 ^ lq * 2 ^ (lp - lq)).
    { rewrite <- Z.pow_add_r by lia. f_equal. lia. }
    pose proof (pow2_pos (lp - lq) Hd) as Ht.
    destruct (Z.ltb_spec p (q * 2 ^ (lp - lq))) as [Hb|Hb].
    + replace (lp - lq - 1 + 1) with (lp - lq) by lia.
      destruct (Z.leb_spec 0 (lp - lq)) as [_|?]; [|lia].
      split; [|lia].
      destruct (Z.leb_spec 0 (lp - lq - 1)) as [Hd1|Hd1].
      * assert (Hpow1 : 2 ^ (lp - lq) = 2 * 2 ^ (lp - lq - 1)).
        { rewrite <- pow2_succ by lia. f_equal. lia. }
        rewrite pow2_succ in Hq2 by lia. nia.
      * assert (lp - lq = 0) as Hz by lia. rewrite Hz in *.
        change (- (0 - 1)) with 1. change (2 ^ 1) with 2.
        rewrite Z.pow_0_r in Hpow. rewrite pow2_succ in Hq2 by lia. lia.
    + destruct (Z.leb_spec 0 (lp - lq + 1)) as [_|?]; [|lia].
      destruct (Z.leb_spec 0 (lp - lq)) as [_|?]; [|lia].
      split; [exact Hb|].
      rewrite (pow2_succ (lp - lq)) by lia.
      rewrite pow2_succ in Hp2 by lia. nia.
  - assert (Hpow : 2 ^ lq = 2 ^ lp * 2 ^ (- (lp - lq))).
    { rewrite <- Z.pow_add_r by lia. f_equal. lia. }
    pose proof (pow2_pos (- (lp - lq)) ltac:(lia)) as Ht.
    destruct (Z.ltb_spec (p * 2 ^ (- (lp - lq))) q) as [Hb|Hb].
    + replace (lp - lq - 1 + 1) with (lp - lq) by lia.
      destruct (Z.leb_spec 0 (lp - lq - 1)) as [?|_]; [lia|].
      destruct (Z.leb_spec 0 (lp - lq)) as [?|_]; [lia|].
      split; [|lia].
      replace (- (lp - lq - 1)) with (- (lp - lq) + 1) by lia.
      rewrite pow2_succ by lia. rewrite pow2_succ in Hq2 by lia. nia.
    + destruct (Z.leb_spec 0 (lp - lq)) as [?|_]; [lia|].
      split; [exact Hb|].
      destruct (Z.leb_spec 0 (lp - lq + 1)) as [Hd1|Hd1].
      * assert (lp - lq = - 1) as Hz by lia. rewrite Hz in *.
        change (- 1 + 1) with 0. rewrite Z.pow_0_r.
        change (- - 1) with 1 in Hpow. change (2 ^ 1) with 2 in Hpow.
        rewrite pow2_succ in Hp2 by lia. lia.
      * assert (Hpow1 : 2 ^ (- (lp - lq)) = 2 * 2 ^ (- (lp - lq + 1))).
        { rewrite <- pow2_succ by lia. f_equal. lia. }
        pose proof (pow2_pos (- (lp - lq + 1)) ltac:(lia)).
        rewrite pow2_succ in Hp2 by lia. nia.
Qed.

Lemma ilog2_mono (p q p' q' : Z) :
  0 < p -> 0 < q -> 0 < p' -> 0 < q' -> p * q' <= p' * q ->
  ilog2 p q <= ilog2 p' q'.
Proof.
  intros Hp Hq Hp' Hq' Hle.
  destruct (ilog2_spec p q Hp Hq) as [Hlo _].
  destruct (ilog2_spec p' q' Hp' Hq') as [_ Hhi].
  destruct (Z.le_gt_cases (ilog2 p q) (ilog2 p' q')) as [H|Hgt]; [exact H|].
  exfalso. apply Hhi.
  apply (pow2_le_anti (ilog2 p q)); [lia | lia | lia |].
  apply (pow2_le_mono _ p q); assumption.
Qed.

Lemma ilog2_lower (p q : Z) :
  0 < p -> 0 < q -> q <= 2 * p -> - 1 <= ilog2 p q.
Proof.
  intros Hp Hq Hhalf.
  destruct (ilog2_spec p q Hp Hq) as [_ Hhi].
  destruct (Z.le_gt_cases (- 1) (ilog2 p q)) as [H|Hlt]; [exact H|].
  exfalso. apply Hhi.
  apply (pow2_le_anti (- 1)); [lia | lia | lia |].
  unfold pow2_le. change (0 <=? - 1) with false. cbv iota.
  change (2 ^ (- - 1)) with 2. lia.
Qed.

Lemma round_b64_mono (p1 q1 p2 q2 : Z) :
  0 < p1 -> 0 < q1 -> 0 < p2 -> 0 < q2 ->
  q1 <= 2 * p1 -> p1 * q2 <= p2 * q1 -> p2 < q2 * 2 ^ 53 ->
  dy_le (round_b64 p1 q1) (round_b64 p2 q2)
  /\ Dexp (round_b64 p1 q1) <= 0 /\ Dexp (round_b64 p2 q2) <= 0.
Proof.
  intros Hp1 Hq1 Hp2 Hq2 Hhalf Hle Hbig.
  pose proof (ilog2_lower p1 q1 Hp1 Hq1 Hhalf) as Hlo1.
  pose proof (ilog2_mono p1 q1 p2 q2 Hp1 Hq1 Hp2 Hq2 Hle) as Hmono.
  assert (Hhi2 : ilog2 p2 q2 <= 52) by (apply ilog2_upper; lia).
  destruct (ilog2_spec p1 q1 Hp1 Hq1) as [_ Hup1].
  destruct (ilog2_spec p2 q2 Hp2 Hq2) as [Hdn2 _].
  rewrite !round_b64_pos by lia.
  set (e1 := ilog2 p1 q1) in *. set (e2 := ilog2 p2 q2) in *.
  rewrite !Z.max_l by lia. unfold dy_le. cbn [Dnum Dexp].
  split; [|lia].
  replace (- (e1 - 52)) with (52 - e1) by lia.
  replace (- (e2 - 52)) with (52 - e2) by lia.
  pose proof (pow2_pos (52 - e1) ltac:(lia)) as Ht1.
  pose proof (pow2_pos (52 - e2) ltac:(lia)) as Ht2.
  destruct (Z.eq_dec e1 e2) as [Heq|Hne].
  - rewrite Heq in *.
    assert (rne (p1 * 2 ^ (52 - e2)) q1 <= rne (p2 * 2 ^ (52 - e2)) q2)
      by (apply rne_mono; nia).
    nia.
  - assert (H53 : 2 ^ 53 = 2 ^ (e1 + 1) * 2 ^ (52 - e1)).
    { rewrite <- Z.pow_add_r by lia. f_equal. lia. }
    assert (H52 : 2 ^ 52 = 2 ^ e2 * 2 ^ (52 - e2)).
    { rewrite <- Z.pow_add_r by lia. f_equal. lia. }
    assert (Hstep : 2 * 2 ^ (52 - e2) <= 2 ^ (52 - e1)).
    { rewrite <- pow2_succ by lia. apply Z.pow_le_mono_r; lia. }
    unfold pow2_le in Hup1, Hdn2.
    destruct (Z.leb_spec 0 (e1 + 1)) as [_|?]; [|lia].
    destruct (Z.leb_spec 0 e2) as [_|?]; [|lia].
    pose proof (pow2_pos (e1 + 1) ltac:(lia)).
    pose proof (pow2_pos e2 ltac:(lia)).
    assert (HM1 : rne (p1 * 2 ^ (52 - e1)) q1 <= 2 ^ 53).
    { apply rne_le_int; [lia|]. rewrite H53. nia. }
    assert (HM2 : 2 ^ 52 <= rne (p2 * 2 ^ (52 - e2)) q2).
    { apply rne_ge_int; [lia|]. rewrite H52. nia. }
    change (2 ^ 53) with (2 * 2 ^ 52) in HM1.
    pose proof (pow2_pos 52 ltac:(lia)). nia.
Qed.

Lemma truediv_round (a b : Z) :
  0 < a -> 0 <= b <= a ->
  int_truediv a (a + b) = ret (round_b64 a (a + b)).
Proof.
  intros Ha Hb.
  destruct (truediv_ratio a b Ha Hb) as (M & E & H & _).
  unfold int_truediv in *.
  destruct (Z.eqb_spec (a + b) 0) as [?|_]; [lia|].
  rewrite (Z.abs_eq (a + b)), (Z.sgn_pos (a + b)), Z.mul_1_r in * by lia.
  destruct (overflows (round_b64 a (a + b))); [discriminate H | reflexivity].
Qed.

Lemma float_mul_round (M1 E1 M2 E2 k : Z) :
  E1 <= 0 -> 2 ^ (- E1) <= 2 * M1 -> M1 <= 2 ^ (- E1) ->
  E2 <= 0 -> M2 = k * 2 ^ (- E2) -> 0 <= k < 2 ^ 53 ->
  float_mul (Dy M1 E1) (Dy M2 E2)
  = Finite (round_b64 (M1 * M2) (2 ^ (- (E1 + E2)))).
Proof.
  intros HE1 Hlo Hhi HE2 HM2 Hk.
  destruct (float_mul_ratio M1 E1 M2 E2 k HE1 Hlo Hhi HE2 HM2 Hk)
    as (M & E & H & _).
  unfold float_mul in *. cbn [Dnum Dexp] in *.
  assert (Hsame : (if 0 <=? E1 + E2
                   then round_b64 (M1 * M2 * 2 ^ (E1 + E2)) 1
                   else round_b64 (M1 * M2) (2 ^ (- (E1 + E2))))
                  = round_b64 (M1 * M2) (2 ^ (- (E1 + E2)))).
  { destruct (Z.leb_spec 0 (E1 + E2)) as [H0|H0]; [|reflexivity].
    assert (E1 + E2 = 0) as -> by lia. change (- 0) with 0.
    rewrite Z.pow_0_r, Z.mul_1_r. reflexivity. }
  rewrite Hsame in *.
  destruct (overflows (round_b64 (M1 * M2) (2 ^ (- (E1 + E2)))));
    [discriminate H | reflexivity].
Qed.

Lemma py_round_form (M E : Z) :
  E <= 0 -> py_round (Finite (Dy M E)) = ret (rne M (2 ^ (- E))).
Proof.
  intros HE. unfold py_round.
  destruct (Z.leb_spec 0 E) as [H0|H0]; [|reflexivity].
  assert (E = 0) as -> by lia. change (- 0) with 0.
  rewrite Z.pow_0_r, Z.mul_1_r. f_equal.
  rewrite <- (Z.mul_1_r M) at 2. symmetry. apply rne_exact. lia.
Qed.

(** The index grows with the winner's share of the top two counts. *)
Lemma index_mono (a1 b1 a2 b2 : Z) (mzx_chars : list Z) :
  0 < a1 -> 0 <= b1 <= a1 -> 0 < a2 -> 0 <= b2 <= a2 ->
  a1 * (a2 + b2) <= a2 * (a1 + b1) ->
  (1 <= length mzx_chars)%nat -> Z.of_nat (length mzx_chars) <= 2 ^ 53 ->
  exists r1 r2 i1 i2,
    int_truediv a1 (a1 + b1) = ret r1
    /\ int_truediv a2 (a2 + b2) = ret r2
    /\ (dy_Q r1 <= dy_Q r2)%Q
    /\ winner_char_index r1 mzx_chars = ret i1
    /\ winner_char_index r2 mzx_chars = ret i2
    /\ i1 <= i2.
Proof.
  intros Ha1 Hb1 Ha2 Hb2 Hshare Hgrad Hfits.
  set (k := Z.of_nat (length mzx_chars) - 1).
  assert (Hk : 0 <= k < 2 ^ 53) by (unfold k; lia).
  destruct (truediv_ratio a1 b1 Ha1 Hb1) as (M1 & E1 & Hd1 & HE1 & Hlo1 & Hhi1 & _).
  destruct (truediv_ratio a2 b2 Ha2 Hb2) as (M2 & E2 & Hd2 & HE2 & Hlo2 & Hhi2 & _).
  pose proof (truediv_round a1 b1 Ha1 Hb1) as Hr1.
  pose proof (truediv_round a2 b2 Ha2 Hb2) as Hr2.
  rewrite Hd1 in Hr1. rewrite Hd2 in Hr2.
  injection Hr1 as Hr1. injection Hr2 as Hr2.
  destruct (round_b64_mono a1 (a1 + b1) a2 (a2 + b2)) as (Hle & _ & _);
    try lia.
  rewrite <- Hr1, <- Hr2 in Hle. unfold dy_le in Hle. cbn [Dnum Dexp] in Hle.
  pose proof (pow2_pos (- E1) ltac:(lia)) as Ht1.
  pose proof (pow2_pos (- E2) ltac:(lia)) as Ht2.
  destruct (float_of_int_exact k Hk) as (Mk & Ek & Hconv & HEk & HMk).
  pose proof (pow2_pos (- Ek) ltac:(lia)) as Htk.
  destruct (float_mul_ratio M1 E1 Mk Ek k ltac:(lia) Hlo1 Hhi1 HEk HMk Hk)
    as (P1 & F1 & Hm1 & HF1 & Hplo1 & Hphi1 & _).
  destruct (float_mul_ratio M2 E2 Mk Ek k ltac:(lia) Hlo2 Hhi2 HEk HMk Hk)
    as (P2 & F2 & Hm2 & HF2 & Hplo2 & Hphi2 & _).
  pose proof (float_mul_round M1 E1 Mk Ek k ltac:(lia) Hlo1 Hhi1 HEk HMk Hk)
    as Hf1.
  pose proof (float_mul_round M2 E2 Mk Ek k ltac:(lia) Hlo2 Hhi2 HEk HMk Hk)
    as Hf2.
  rewrite Hm1 in Hf1. rewrite Hm2 in Hf2.
  injection Hf1 as Hf1. injection Hf2 as Hf2.
  assert (Hidx : rne P1 (2 ^ (- F1)) <= rne P2 (2 ^ (- F2))).
  { pose proof (pow2_pos (- F1) ltac:(lia)) as Hg1.
    pose proof (pow2_pos (- F2) ltac:(lia)) as Hg2.
    destruct (Z.eq_dec k 0) as [Hk0|Hk0].
    - assert (P1 = 0) by nia. assert (P2 = 0) by nia. subst P1 P2.
      apply rne_mono; lia.
    - assert (Hq1 : 2 ^ (- (E1 + Ek)) = 2 ^ (- E1) * 2 ^ (- Ek)).
      { rewrite <- Z.pow_add_r by lia. f_equal. lia. }
      assert (Hq2 : 2 ^ (- (E2 + Ek)) = 2 ^ (- E2) * 2 ^ (- Ek)).
      { rewrite <- Z.pow_add_r by lia. f_equal. lia. }
      assert (HM1pos : 0 < M1) by lia.
      assert (HM2pos : 0 < M2) by lia.
      assert (HMklo : 2 ^ (- Ek) <= Mk) by (subst Mk; nia).
      assert (HMkhi : Mk < 2 ^ 53 * 2 ^ (- Ek)) by (subst Mk; nia).
      assert (HMkpos : 0 < Mk) by lia.
      clear HMk.
      destruct (round_b64_mono (M1 * Mk) (2 ^ (- (E1 + Ek)))
                  (M2 * Mk) (2 ^ (- (E2 + Ek)))) as (Hple & _ & _).
      + apply Z.mul_pos_pos; assumption.
      + rewrite Hq1. apply Z.mul_pos_pos; assumption.
      + apply Z.mul_pos_pos; assumption.
      + rewrite Hq2. apply Z.mul_pos_pos; assumption.
      + rewrite Hq1.
        assert (2 ^ (- E1) * 2 ^ (- Ek) <= (2 * M1) * Mk)
          by (apply Z.mul_le_mono_nonneg; lia).
        lia.
      + rewrite Hq1, Hq2.
        assert (M1 * 2 ^ (- E2) * (Mk * 2 ^ (- Ek))
                <= M2 * 2 ^ (- E1) * (Mk * 2 ^ (- Ek)))
          by (apply Z.mul_le_mono_nonneg_r; [nia | exact Hle]).
        lia.
      + rewrite Hq2.
        assert (M2 * Mk <= 2 ^ (- E2) * Mk)
          by (apply Z.mul_le_mono_nonneg_r; lia).
        assert (2 ^ (- E2) * Mk < 2 ^ (- E2) * (2 ^ 53 * 2 ^ (- Ek)))
          by (apply Z.mul_lt_mono_pos_l; lia).
        lia.
      + rewrite <- Hf1, <- Hf2 in Hple. unfold dy_le in Hple.
        cbn [Dnum Dexp] in Hple. apply rne_mono; lia. }
  exists (Dy M1 E1), (Dy M2 E2), (rne P1 (2 ^ (- F1))), (rne P2 (2 ^ (- F2))).
  split; [exact Hd1|]. split; [exact Hd2|]. split.
  { rewrite !dy_Q_neg by lia. unfold Qle. cbn [Qnum Qden].
    rewrite !Z2Pos.id by assumption. exact Hle. }
  split; [|split; [|exact Hidx]].
  - unfold winner_char_index. fold k. rewrite Hconv. cbn [bind ret].
    rewrite Hm1. apply py_round_form. exact HF1.
  - unfold winner_char_index. fold k. rewrite Hconv. cbn [bind ret].
    rewrite Hm2. apply py_round_form. exact HF2.
Qed.

(** X22: the glyph index depends on the two top counts only through the
    winner's share [a / (a + b)], and grows with it: a cell whose winner
    holds a larger share never gets an earlier glyph, and equal shares,
    such as counts scaled by a common factor, give the same index. *)
Theorem glyph_index_monotone
  (w1 s1 w2 s2 : N * nat) (mzx_chars : list Z)
  (Hw1 : (0 < fst w1)%N) (Hs1 : (fst s1 <= fst w1)%N)
  (Hw2 : (0 < fst w2)%N) (Hs2 : (fst s2 <= fst w2)%N)
  (Hshare : (fst w1 * (fst w2 + fst s2) <= fst w2 * (fst w1 + fst s1))%N)
  (Hgrad : (1 <= length mzx_chars)%nat)
  (Hfits : Z.of_nat (length mzx_chars) <= 2 ^ 53) :
  exists r1 r2 i1 i2,
    winner_ratio w1 s1 = ret r1
    /\ winner_ratio w2 s2 = ret r2
    /\ (dy_Q r1 <= dy_Q r2)%Q
    /\ winner_char_index r1 mzx_chars = ret i1
    /\ winner_char_index r2 mzx_chars = ret i2
    /\ i1 <= i2
    /\ ((fst w1 * (fst w2 + fst s2) = fst w2 * (fst w1 + fst s1))%N ->
        i1 = i2).
Proof.
  unfold winner_ratio.
  set (a1 := Z.of_N (fst w1)). set (b1 := Z.of_N (fst s1)).
  set (a2 := Z.of_N (fst w2)). set (b2 := Z.of_N (fst s2)).
  assert (Ha1 : 0 < a1) by (unfold a1; lia).
  assert (Hb1 : 0 <= b1 <= a1) by (unfold a1, b1; lia).
  assert (Ha2 : 0 < a2) by (unfold a2; lia).
  assert (Hb2 : 0 <= b2 <= a2) by (unfold a2, b2; lia).
  assert (Hsh : a1 * (a2 + b2) <= a2 * (a1 + b1)) by (unfold a1, a2, b1, b2; nia).
  destruct (index_mono a1 b1 a2 b2 mzx_chars Ha1 Hb1 Ha2 Hb2 Hsh Hgrad Hfits)
    as (r1 & r2 & i1 & i2 & Hr1 & Hr2 & Hq & Hi1 & Hi2 & Hle).
  exists r1, r2, i1, i2.
  split; [exact Hr1|]. split; [exact Hr2|]. split; [exact Hq|].
  split; [exact Hi1|]. split; [exact Hi2|]. split; [exact Hle|].
  intros Heq.
  assert (Hsh' : a2 * (a1 + b1) <= a1 * (a2 + b2))
    by (unfold a1, a2, b1, b2; nia).
  destruct (index_mono a2 b2 a1 b1 mzx_chars Ha2 Hb2 Ha1 Hb1 Hsh' Hgrad Hfits)
    as (r2' & r1' & i2' & i1' & Hr2' & Hr1' & _ & Hi2' & Hi1' & Hle').
  rewrite Hr2 in Hr2'. injection Hr2' as <-.
  rewrite Hr1 in Hr1'. injection Hr1' as <-.
  rewrite Hi2 in Hi2'. injection Hi2' as <-.
  rewrite Hi1 in Hi1'. injection Hi1' as <-.
  lia.
Qed.

Lemma glyph_index_monotone_witness :
  exists r1 r2 i1 i2,
    winner_ratio (56%N, 1%nat) (56%N, 3%nat) = ret r1
    /\ winner_ratio (112%N, 5%nat) (0%N, 0%nat) = ret r2
    /\ (dy_Q r1 <= dy_Q r2)%Q
    /\ winner_char_index r1 default_chars = ret i1
    /\ winner_char_index r2 default_chars = ret i2
    /\ i1 <= i2
    /\ ((56 * (112 + 0) = 112 * (56 + 56))%N -> i1 = i2).
Proof.
  apply (glyph_index_monotone (56%N, 1%nat) (56%N, 3%nat)
           (112%N, 5%nat) (0%N, 0%nat) default_chars).
  - reflexivity.
  - vm_compute; discriminate.
  - reflexivity.
  - vm_compute; discriminate.
  - vm_compute; discriminate.
  - vm_compute; lia.
  - vm_compute; discriminate.
Defined.

